(** * JamesCafe: the order-taking loop and its inventory model

    A shallow embedding of [src/JamesCafe/JamesCafe.cpp] and the proofs of
    the properties its specification states.

    Conventions of the embedding.
    - [int] values are [Z]; every [int] the program computes is shown below
      to stay far inside the 32-bit range, so no wrap-around is written for
      them.  The receipt counter is [unsigned long long] and can
      in principle wrap, so its arithmetic is written modulo 2^64.
    - [double] is the kernel's binary64 type [float].
    - [Item*] is an index into the [menu] vector, which is never resized.
    - Standard input is a list of events: a line (without its newline), or
      an end-of-input condition reported by [std::getline].
    - Output (prompts, colours, receipts) is not modelled. *)

From Stdlib Require Import ZArith Lia Ascii String Sorted PrimFloat Uint63.
From stdpp Require Import base tactics option list.

Local Open Scope Z_scope.

(** ** Standard input *)

Inductive InEvent : Type :=
| Line (s : string)   (* std::getline succeeded and produced [s] *)
| Eof.                (* std::getline failed *)

Module Chars.

Definition code (c : ascii) : Z := Z.of_N (N_of_ascii c).

Definition CR : ascii := ascii_of_N 13.

(** [std::isspace] in the "C" locale, which is also the set
    [" \t\n\r\f\v"] of [readLineTrimmed]: codes 9 to 13 and 32. *)
Definition isspace (c : ascii) : bool :=
  ((9 <=? code c) && (code c <=? 13)) || (code c =? 32).

Definition isdigit (c : ascii) : bool :=
  (48 <=? code c) && (code c <=? 57).

Definition digit_val (c : ascii) : Z := code c - 48.

(** [std::tolower] on an [unsigned char] in the "C" locale. *)
Definition tolower (c : ascii) : ascii :=
  if (65 <=? code c) && (code c <=? 90)
  then ascii_of_N (N_of_ascii c + 32)
  else c.

Definition chars (s : string) : list ascii := list_ascii_of_string s.

(** [if (!line.empty() && line.back() == '\r') line.pop_back();] *)
Definition strip_cr (l : list ascii) : list ascii :=
  match List.rev l with
  | c :: r => if Ascii.eqb c CR then List.rev r else l
  | [] => l
  end.

Fixpoint skip_ws (l : list ascii) : list ascii :=
  match l with
  | c :: r => if isspace c then skip_ws r else l
  | [] => []
  end.

End Chars.

(** ** [operator>>(istream&, int&)] followed by [eof()]

    The stream extraction skips leading white space, reads an optional sign
    and then the longest run of decimal digits.  It fails when there is no
    digit, and it fails (storing a saturated value) when the number does not
    fit an [int].  [eofbit] is set exactly when the scan ran into the end of
    the buffer, that is when nothing follows the digits. *)

Module IntParse.
Import Chars.

Definition INT_MIN : Z := - 2147483648.
Definition INT_MAX : Z := 2147483647.

(** Accumulates the digits at the head of [l]; returns the value and the
    unread remainder. *)
Fixpoint digits (acc : Z) (l : list ascii) : Z * list ascii :=
  match l with
  | c :: r => if isdigit c then digits (10 * acc + digit_val c) r else (acc, l)
  | [] => (acc, [])
  end.

Definition split_sign (l : list ascii) : bool * list ascii :=
  match l with
  | c :: r =>
      if Ascii.eqb c "-"%char then (true, r)
      else if Ascii.eqb c "+"%char then (false, r)
      else (false, l)
  | [] => (false, [])
  end.

(** [extract l = (ok, eof)]: [ok] is [Some x] when [ss >> x] succeeds with
    value [x]; [eof] is the stream's [eof()] afterwards. *)
Definition extract (l : list ascii) : option Z * bool :=
  let '(neg, body) := split_sign (skip_ws l) in
  match body with
  | [] => (None, true)
  | c :: _ =>
      if isdigit c then
        let '(v, rest) := digits 0 body in
        let x := if neg then - v else v in
        let at_end := match rest with [] => true | _ => false end in
        if (INT_MIN <=? x) && (x <=? INT_MAX) then (Some x, at_end)
        else (None, at_end)
      else (None, false)
  end.

(** [ss >> x && ss.eof()] *)
Definition parse_int (l : list ascii) : option Z :=
  match extract l with
  | (Some x, true) => Some x
  | _ => None
  end.

End IntParse.

(** ** The prompts *)

(** One pass through the body of the [while (true)] of [readIntInRange]. *)
Inductive IntReply : Type :=
| Accepted (x : Z)     (* return x; *)
| OutOfRange           (* "Please enter a number between ..."; continue *)
| InvalidNumber        (* "Invalid number. Try again." *)
| EofRetry.            (* cin.clear(); continue *)

Definition readIntInRange_iter (minVal maxVal : Z) (ev : InEvent) : IntReply :=
  match ev with
  | Eof => EofRetry
  | Line s =>
      match IntParse.parse_int (Chars.strip_cr (Chars.chars s)) with
      | Some x =>
          if (x <? minVal) || (x >? maxVal) then OutOfRange else Accepted x
      | None => InvalidNumber
      end
  end.

(** [readIntInRange]: the loop over the pending input.  [None] means the
    input ran out while the function was still prompting. *)
Fixpoint readIntInRange (minVal maxVal : Z) (ins : list InEvent)
  : option (Z * list InEvent) :=
  match ins with
  | [] => None
  | ev :: rest =>
      match readIntInRange_iter minVal maxVal ev with
      | Accepted x => Some (x, rest)
      | _ => readIntInRange minVal maxVal rest
      end
  end.

(** One pass through the body of the loop of [readYesNo]; [None] re-prompts. *)
Definition readYesNo_iter (ev : InEvent) : option bool :=
  match ev with
  | Eof => None
  | Line s =>
      let line :=
        string_of_list_ascii
          (List.map Chars.tolower (Chars.strip_cr (Chars.chars s))) in
      if String.eqb line "y" || String.eqb line "yes" then Some true
      else if String.eqb line "n" || String.eqb line "no" then Some false
      else None
  end.

(** [readLineTrimmed] on a line that was read. *)
Definition trim (s : string) : string :=
  let l := Chars.skip_ws (Chars.strip_cr (Chars.chars s)) in
  string_of_list_ascii (List.rev (Chars.skip_ws (List.rev l))).

(** ** Domain classes *)

(** [static_cast<double>] of an [int]; exact on the whole [int] range. *)
Definition double_of_int (z : Z) : float :=
  if z <? 0 then PrimFloat.opp (PrimFloat.of_uint63 (Uint63.of_Z (- z)))
  else PrimFloat.of_uint63 (Uint63.of_Z z).

Record Item : Type := mkItem {
  name : string;
  price : float;
  qty : Z;
  category : string;
  sold : Z
}.

(** The constructor [Item(n, p, q, c)]; [sold] starts at its default 0. *)
Definition newItem (n : string) (p : float) (q : Z) (c : string) : Item :=
  mkItem n p q c 0.

(** An [Item*]: [None] is [nullptr], [Some i] points at [menu[i]]. *)
Definition ItemPtr : Type := option nat.

Definition deref (menu : list Item) (p : ItemPtr) : option Item :=
  match p with
  | Some i => menu !! i
  | None => None
  end.

(** [struct OrderLine], with one history variable added for the proofs:
    [priceAtSelection] records the unit price the pointed-at item had when
    the line was created.  The program has no such member and no definition
    of the embedding computes with it; [subtotal] reads the price through the
    pointer, as the code does. *)
Record OrderLine : Type := mkLine {
  item : ItemPtr;
  quantity : Z;
  priceAtSelection : float
}.

(** [OrderLine::subtotal], reading the item through the pointer.  A non-null
    pointer stored in a line always points into the menu (see [line_ok]
    below); the model gives 0.0 for any other pointer. *)
Definition subtotal (menu : list Item) (l : OrderLine) : float :=
  match deref menu (item l) with
  | Some it => PrimFloat.mul (price it) (double_of_int (quantity l))
  | None => 0%float
  end.

(** [class Order].  The [timestamp] member only feeds the receipt's
    header and is left out. *)
Record Order : Type := mkOrder {
  customerName : string;
  dineOption : string;
  lines : list OrderLine;
  receiptNo : Z
}.

(** [Order::total]: [t = 0.0; for (l : lines) t += l.subtotal();] *)
Definition total (menu : list Item) (o : Order) : float :=
  fold_left (fun t l => PrimFloat.add t (subtotal menu l)) (lines o) 0%float.

(** ** App helpers *)

Definition in_stock (cat : string) (it : Item) : bool :=
  String.eqb (category it) cat && (qty it >? 0).

Fixpoint isCategorySoldOut (menu : list Item) (cat : string) : bool :=
  match menu with
  | [] => true
  | it :: rest => if in_stock cat it then false else isCategorySoldOut rest cat
  end.

(** The pointers collected by the first loop of [listAvailableInCategory],
    for the part of the menu that starts at index [i]. *)
Fixpoint available_from (i : nat) (items : list Item) (cat : string) : list nat :=
  match items with
  | [] => []
  | it :: rest =>
      if in_stock cat it then i :: available_from (S i) rest cat
      else available_from (S i) rest cat
  end.

Definition listAvailableInCategory (menu : list Item) (cat : string) : list nat :=
  available_from 0 menu cat.

Definition two64 : Z := 2 ^ 64.

(** [generateReceiptNumber], given the clock reading [ms] (the count of
    milliseconds since the epoch, a signed 64-bit value that the code casts
    to [unsigned long long]) and the value of the static [counter].
    Returns the receipt number and the new counter. *)
Definition generateReceiptNumber (ms : Z) (counter : Z) : Z * Z :=
  let millis := ms mod two64 in
  let counter' := (counter + 1) mod two64 in
  ((millis mod 1000000000 + counter') mod two64, counter').

(** ** The summary's aggregates *)

(** [for (it : menu) if (!best || it.sold > best->sold) best = &it;]
    over the items from index [i] on; [best] carries the index together
    with the item it points at (the menu is not written during the scan). *)
Fixpoint scanBest (i : nat) (items : list Item) (best : option (nat * Item))
  : option (nat * Item) :=
  match items with
  | [] => best
  | it :: rest =>
      let best' :=
        match best with
        | None => Some (i, it)
        | Some (_, b) => if sold it >? sold b then Some (i, it) else best
        end in
      scanBest (S i) rest best'
  end.

(** The item named on the "Best seller:" line; [None] stands for
    "No sales recorded." *)
Definition bestSeller (menu : list Item) : option nat :=
  match scanBest 0 menu None with
  | Some (i, b) => if sold b >? 0 then Some i else None
  | None => None
  end.

Definition totalItemsSold (menu : list Item) : Z :=
  fold_left (fun t it => t + sold it) menu 0.

Definition totalRevenue (menu : list Item) (allOrders : list Order) : float :=
  fold_left (fun t o => PrimFloat.add t (total menu o)) allOrders 0%float.

(** ** [main] *)

Definition initial_menu : list Item := [
  newItem "Cappuccino" 140 20 "Beverages";
  newItem "Latte" 150 20 "Beverages";
  newItem "Iced Americano" 120 20 "Beverages";
  newItem "Chocolate Milkshake" 190 20 "Beverages";
  newItem "Blueberry Muffin" 75 20 "Snacks";
  newItem "Garlic Parmesan Toast" 95 20 "Snacks";
  newItem "Glazed Donut Holes" 100 20 "Snacks";
  newItem "Chicken Wrap" 180 20 "Meals";
  newItem "Garlic Rice + Burger" 220 20 "Meals";
  newItem "Chicken Alfredo Pasta" 275 20 "Meals";
  newItem "Chocolate Cake Slice" 130 20 "Desserts";
  newItem "Fruit Parfait" 110 20 "Desserts";
  newItem "Tiramisu" 270 20 "Desserts"
].

(** The places where [main] blocks on standard input, and its end. *)
Inductive PC : Type :=
| AskName                          (* readLineTrimmed, "Enter customer name: " *)
| NameLivelock                     (* the name loop after a failed getline *)
| AskDine                          (* readYesNo, "Dine option ..." *)
| AskCategory                      (* readIntInRange, "Choose category (0-4): " *)
| AskItem (available : list nat)   (* readIntInRange, "Select item number ..." *)
| AskQuantity (chosen : nat)       (* readIntInRange, "Enter quantity: " *)
| AskAddMore                       (* readYesNo, "Add more items?" *)
| AskContinue                      (* readYesNo, "Continue ordering ...?" *)
| AskNext                          (* readYesNo, "Serve next customer?" *)
| Done.                            (* the summary was printed; return 0 *)

(** The variables of [main], the static counter of [generateReceiptNumber],
    and the number of calls made to it so far (which selects the clock
    reading the next call sees). *)
Record State : Type := mkState {
  menu : list Item;
  order : Order;
  allOrders : list Order;
  customersServed : Z;
  counter : Z;
  genCalls : nat;
  pc : PC
}.

Definition with_pc (st : State) (p : PC) : State :=
  mkState (menu st) (order st) (allOrders st) (customersServed st)
          (counter st) (genCalls st) p.

Definition with_order (st : State) (o : Order) : State :=
  mkState (menu st) o (allOrders st) (customersServed st)
          (counter st) (genCalls st) (pc st).

Section Main.

(** [clock k] is what the [k]-th call of [generateReceiptNumber] reads from
    [system_clock], in milliseconds since the epoch. *)
Variable clock : nat -> Z.

(** [Order order; order.receiptNo = generateReceiptNumber();] *)
Definition newCustomer (st : State) : State :=
  let '(r, c) := generateReceiptNumber (clock (genCalls st)) (counter st) in
  mkState (menu st) (mkOrder "" "" [] r) (allOrders st) (customersServed st)
          c (S (genCalls st)) AskName.

(** The state before the outer loop is entered. *)
Definition boot : State :=
  mkState initial_menu (mkOrder "" "" [] 0) [] 0 0 0%nat AskNext.

Definition init : State := newCustomer boot.

(** [if (order.lines.empty()) ... else { printReceipt; push_back;
    customersServed++; }], then the "Serve next customer?" prompt. *)
Definition finishOrder (st : State) : State :=
  match lines (order st) with
  | [] => with_pc st AskNext
  | _ :: _ =>
      mkState (menu st) (order st) (allOrders st ++ [order st])
              (customersServed st + 1) (counter st) (genCalls st) AskNext
  end.

Definition categoryName (catChoice : Z) : string :=
  match catChoice with
  | 1 => "Beverages"
  | 2 => "Snacks"
  | 3 => "Meals"
  | 4 => "Desserts"
  | _ => ""
  end.

(** The selection loop's body from [catChoice] to the item prompt. *)
Definition chooseCategory (st : State) (catChoice : Z) : State :=
  if catChoice =? 0 then finishOrder st
  else
    let cat := categoryName catChoice in
    if String.eqb cat "" then st
    else if isCategorySoldOut (menu st) cat then st
    else
      match listAvailableInCategory (menu st) cat with
      | [] => st
      | available => with_pc st (AskItem available)
      end.

(** [Item* chosen = available[itemChoice - 1];] the branch for a missing
    element stands for the [if (!chosen) continue;] guard. *)
Definition chooseItem (st : State) (available : list nat) (itemChoice : Z) : State :=
  if itemChoice =? 0 then with_pc st AskCategory
  else
    match available !! Z.to_nat (itemChoice - 1) with
    | Some chosen => with_pc st (AskQuantity chosen)
    | None => with_pc st AskCategory
    end.

(** [order.lines.push_back({chosen, qty}); chosen->qty -= qty;
    chosen->sold += qty;] where [it] is [*chosen] as the quantity prompt
    saw it. *)
Definition addToOrder (st : State) (chosen : nat) (it : Item) (q : Z) : State :=
  let o := order st in
  let it' := mkItem (name it) (price it) (qty it - q) (category it) (sold it + q) in
  mkState (<[chosen := it']> (menu st))
          (mkOrder (customerName o) (dineOption o)
                   (lines o ++ [mkLine (Some chosen) q (price it)]) (receiptNo o))
          (allOrders st) (customersServed st) (counter st) (genCalls st)
          AskAddMore.

(** What [main] does with the next event of standard input. *)
Definition step (st : State) (ev : InEvent) : State :=
  match pc st with
  | AskName =>
      match ev with
      | Eof => with_pc st NameLivelock
      | Line s =>
          let nm := trim s in
          if String.eqb nm "" then st
          else
            let o := order st in
            with_pc (with_order st (mkOrder nm (dineOption o) (lines o) (receiptNo o)))
                    AskDine
      end
  | NameLivelock => st
  | AskDine =>
      match readYesNo_iter ev with
      | Some isEatIn =>
          let o := order st in
          let d := (if isEatIn then "Eat-In" else "Take-Out")%string in
          with_pc (with_order st (mkOrder (customerName o) d (lines o) (receiptNo o)))
                  AskCategory
      | None => st
      end
  | AskCategory =>
      match readIntInRange_iter 0 4 ev with
      | Accepted catChoice => chooseCategory st catChoice
      | _ => st
      end
  | AskItem available =>
      match readIntInRange_iter 0 (Z.of_nat (length available)) ev with
      | Accepted itemChoice => chooseItem st available itemChoice
      | _ => st
      end
  | AskQuantity chosen =>
      match menu st !! chosen with
      | Some it =>
          match readIntInRange_iter 1 (qty it) ev with
          | Accepted q => addToOrder st chosen it q
          | _ => st
          end
      | None => st
      end
  | AskAddMore =>
      match readYesNo_iter ev with
      | Some true => with_pc st AskCategory
      | Some false => with_pc st AskContinue
      | None => st
      end
  | AskContinue =>
      match readYesNo_iter ev with
      | Some true => with_pc st AskCategory
      | Some false => finishOrder st
      | None => st
      end
  | AskNext =>
      match readYesNo_iter ev with
      | Some true => newCustomer st
      | Some false => with_pc st Done
      | None => st
      end
  | Done => st
  end.

Definition run_from (st : State) (ins : list InEvent) : State :=
  fold_left step ins st.

(** The state of the program after it has consumed [ins]. *)
Definition run (ins : list InEvent) : State := run_from init ins.

End Main.

(** * Further functions of the source

    The loops of [readYesNo] and [readLineTrimmed] as functions on the
    input, and the one piece of output the properties below speak about: the
    text of [showCategories] and the number the item listing prints in front
    of each item.  Receipts, prices and times are formatted by the C++
    library from doubles and the local time and stay out of the model. *)

From Stdlib Require Decimal DecimalString DecimalPos DecimalN.

(** [readLineTrimmed] on one input event: a failed [getline] gives the
    empty string, a line is trimmed. *)
Definition readLineTrimmed (ev : InEvent) : string :=
  match ev with
  | Eof => ""
  | Line s => trim s
  end.

(** [readYesNo]: the loop over the pending input.  [None] means the input
    ran out while the function was still prompting. *)
Fixpoint readYesNo (ins : list InEvent) : option (bool * list InEvent) :=
  match ins with
  | [] => None
  | ev :: rest =>
      match readYesNo_iter ev with
      | Some b => Some (b, rest)
      | None => readYesNo rest
      end
  end.

(** ** Output of integers

    [operator<<] on an integer prints its decimal digits, most significant
    first, without leading zeros, after a minus sign for a negative value. *)

Definition print_unsigned (n : N) : string :=
  DecimalString.NilEmpty.string_of_uint (N.to_uint n).

Definition print_int (z : Z) : string :=
  if z <? 0 then String "-"%char (print_unsigned (Z.to_N (- z)))
  else print_unsigned (Z.to_N z).

(** The number the listing of [listAvailableInCategory] prints in front of
    [available[i]]: [cout << (i + 1)], for the [size_t] index [i]. *)
Definition item_number (i : nat) : string :=
  print_unsigned (N.of_nat i + 1).

Module Colors.

Definition ESC : string := String (ascii_of_N 27) "".
Definition RESET : string := (ESC ++ "[0m")%string.
Definition SUBTLE : string := (ESC ++ "[0;36m")%string.
Definition SOLD_OUT : string := (ESC ++ "[0;31m")%string.

End Colors.

Definition NL : string := String (ascii_of_N 10) "".

(** The lambda [printCategory] of [showCategories]: the text it writes. *)
Definition printCategory (menu : list Item) (num : Z) (name : string) : string :=
  (print_int num ++ ") " ++ name
   ++ (if isCategorySoldOut menu name
       then Colors.SOLD_OUT ++ " [SOLD OUT]" ++ Colors.RESET
       else "")
   ++ NL)%string.

(** [showCategories]: the text it writes to standard output. *)
Definition showCategories (menu : list Item) : string :=
  (Colors.SUBTLE ++ "Menu categories:" ++ NL ++ Colors.RESET
   ++ printCategory menu 1 "Beverages"
   ++ printCategory menu 2 "Snacks"
   ++ printCategory menu 3 "Meals"
   ++ printCategory menu 4 "Desserts"
   ++ "0) Finish order" ++ NL)%string.

(** ** The input stream with its failure flag

    The machine of [main] above folds the state of [std::cin] into its
    control points.  Here the stream is explicit: the events not yet read
    and whether the stream is in a failed state. *)

Record Cin : Type := mkCin {
  pending : list InEvent;
  failbit : bool
}.

Inductive Got (A : Type) : Type :=
| Blocked                  (* the call waits for input that has not arrived *)
| Read (a : A) (c : Cin).  (* the call came back with [a], leaving [c] *)

Arguments Blocked {A}.
Arguments Read {A} a c.

(** [std::getline(cin, s)].  On a stream that is not good the sentry fails:
    nothing is extracted and the call fails at once.  Otherwise the next
    event is consumed, and an end-of-input puts the stream in the failed
    state.  A failed call is reported as [Eof]. *)
Definition getline (c : Cin) : Got InEvent :=
  if failbit c then Read Eof c
  else
    match pending c with
    | [] => Blocked
    | Eof :: rest => Read Eof (mkCin rest true)
    | Line s :: rest => Read (Line s) (mkCin rest false)
    end.

(** [cin.clear()] *)
Definition cin_clear (c : Cin) : Cin := mkCin (pending c) false.

(** [readLineTrimmed] on the stream: [if (!std::getline(cin, s)) return "";]
    leaves the stream as the failed call left it. *)
Definition readLineTrimmed_cin (c : Cin) : Got string :=
  match getline c with
  | Blocked => Blocked
  | Read ev c' => Read (readLineTrimmed ev) c'
  end.

(** Where a loop stands after a bounded number of iterations. *)
Inductive Loop (A : Type) : Type :=
| Returned (a : A) (c : Cin)   (* the loop was left with [a] *)
| Waiting (c : Cin)            (* it is blocked in a read *)
| Running (c : Cin).           (* it is still iterating *)

Arguments Returned {A} a c.
Arguments Waiting {A} c.
Arguments Running {A} c.

(** The name loop of [main] (lines 271 to 280), for at most [n] iterations. *)
Fixpoint nameLoop (n : nat) (c : Cin) : Loop string :=
  match n with
  | O => Running c
  | S n' =>
      match readLineTrimmed_cin c with
      | Blocked => Waiting c
      | Read nm c' =>
          if String.eqb nm "" then nameLoop n' c' else Returned nm c'
      end
  end.

(** [readYesNo] on the stream, for at most [n] iterations: a failed read is
    followed by [cin.clear()]. *)
Fixpoint readYesNo_cin (n : nat) (c : Cin) : Loop bool :=
  match n with
  | O => Running c
  | S n' =>
      match getline c with
      | Blocked => Waiting c
      | Read Eof c' => readYesNo_cin n' (cin_clear c')
      | Read (Line s) c' =>
          match readYesNo_iter (Line s) with
          | Some b => Returned b c'
          | None => readYesNo_cin n' c'
          end
      end
  end.
(** * Specification vocabulary

    Predicates the statements below are written with.  None of them is used
    by the definitions above. *)

Module IntLiteralSpec.
Import Chars IntParse.

Definition value_of (ds : list ascii) : Z :=
  fold_left (fun a c => 10 * a + digit_val c) ds 0.

(** What the specification calls an input that "parses as an integer with
    no trailing garbage": optional leading white space, an optional sign,
    one or more decimal digits and nothing else, denoting an [int]. *)
Inductive IntLiteral : list ascii -> Z -> Prop :=
| IntLit ws neg sgn ds :
    Forall (fun c => isspace c = true) ws ->
    (neg = false /\ (sgn = [] \/ sgn = ["+"%char])) \/
      (neg = true /\ sgn = ["-"%char]) ->
    ds <> [] ->
    Forall (fun c => isdigit c = true) ds ->
    INT_MIN <= (if neg then - value_of ds else value_of ds) <= INT_MAX ->
    IntLiteral (ws ++ sgn ++ ds) (if neg then - value_of ds else value_of ds).

End IntLiteralSpec.

Section PromptSpec.
Import IntLiteralSpec.

(** The line [s] is an acceptable answer with value [x]. *)
Definition valid_answer (minVal maxVal : Z) (s : string) (x : Z) : Prop :=
  IntLiteral (Chars.strip_cr (Chars.chars s)) x /\ minVal <= x <= maxVal.

(** The event makes [readIntInRange] prompt again. *)
Definition reprompts (minVal maxVal : Z) (ev : InEvent) : Prop :=
  forall s x, ev = Line s -> ~ valid_answer minVal maxVal s x.

End PromptSpec.

(** [best] is the first item of maximal [sold] among the scanned prefix. *)
Definition first_max (pre : list Item) (i : nat) (b : Item) : Prop :=
  pre !! i = Some b /\
  (forall j jt, pre !! j = Some jt -> sold jt <= sold b) /\
  (forall j jt, (j < i)%nat -> pre !! j = Some jt -> sold jt < sold b).

Definition scan_inv (pre : list Item) (best : option (nat * Item)) : Prop :=
  match best with
  | None => pre = []
  | Some (i, b) => first_max pre i b
  end.

(** The time-derived part of a receipt number. *)
Definition time_component (ms : Z) : Z := (ms mod two64) mod 1000000000.

(** A customer is being served: the order in [order] is not yet decided. *)
Definition in_flow (p : PC) : bool :=
  match p with
  | AskNext | Done => false
  | _ => true
  end.

Section MainSpec.

Variable clock : nat -> Z.

(** The receipt number produced by call number [k] (from 0) of
    [generateReceiptNumber]. *)
Definition receiptAt (k : nat) : Z :=
  fst (generateReceiptNumber (clock k) (Z.of_nat k mod two64)).

(** The moves [main] can make on one input event, as a relation. *)
Inductive Transition (st : State) : State -> Prop :=
| T_stay :
    Transition st st
| T_goto p :
    in_flow (pc st) = true ->
    p = NameLivelock \/ p = AskCategory \/ p = AskContinue ->
    Transition st (with_pc st p)
| T_name nm :
    pc st = AskName ->
    Transition st
      (with_pc (with_order st (mkOrder nm (dineOption (order st))
                                       (lines (order st)) (receiptNo (order st))))
               AskDine)
| T_dine d :
    pc st = AskDine ->
    Transition st
      (with_pc (with_order st (mkOrder (customerName (order st)) d
                                       (lines (order st)) (receiptNo (order st))))
               AskCategory)
| T_finish :
    pc st = AskCategory \/ pc st = AskContinue ->
    Transition st (finishOrder st)
| T_list cat available :
    pc st = AskCategory ->
    listAvailableInCategory (menu st) cat = available ->
    available <> [] ->
    Transition st (with_pc st (AskItem available))
| T_pick available chosen :
    pc st = AskItem available ->
    chosen ∈ available ->
    Transition st (with_pc st (AskQuantity chosen))
| T_commit chosen it q :
    pc st = AskQuantity chosen ->
    menu st !! chosen = Some it ->
    1 <= q <= qty it ->
    Transition st (addToOrder st chosen it q)
| T_next :
    pc st = AskNext ->
    Transition st (newCustomer clock st)
| T_done :
    pc st = AskNext ->
    Transition st (with_pc st Done).

End MainSpec.

(** The event ends the selection flow of the customer being served: the
    answer 0 at the category prompt ("Finish order"), or the answer no to
    "Continue ordering (another category)?", which is only asked after a no
    to "Add more items?". *)
Definition ends_selection (st : State) (ev : InEvent) : Prop :=
  (pc st = AskCategory /\ readIntInRange_iter 0 4 ev = Accepted 0) \/
  (pc st = AskContinue /\ readYesNo_iter ev = Some false).

(** ** Invariants of the run *)

(** [it] is a later state of the catalog entry that started as [it0]. *)
Definition item_ok (it0 it : Item) : Prop :=
  name it = name it0 /\ price it = price it0 /\ category it = category it0 /\
  qty it + sold it = qty it0 /\ 0 <= qty it /\ 0 <= sold it.

Definition Inv_menu (st : State) : Prop :=
  length (menu st) = length initial_menu /\
  forall i it0 it,
    initial_menu !! i = Some it0 -> menu st !! i = Some it -> item_ok it0 it.

(** A line points at a catalog entry, carries its price, and has a quantity
    the entry's stock could cover. *)
Definition line_ok (l : OrderLine) : Prop :=
  exists i it0,
    item l = Some i /\ initial_menu !! i = Some it0 /\
    priceAtSelection l = price it0 /\ 1 <= quantity l <= qty it0.

Definition Inv_orders (st : State) : Prop :=
  Forall line_ok (lines (order st)) /\
  Forall (fun o => lines o <> [] /\ Forall line_ok (lines o)) (allOrders st) /\
  customersServed st = Z.of_nat (length (allOrders st)).

(** The order in [order] got its number from the latest call of the
    generator; the recorded orders got theirs from earlier calls, in
    increasing order of call. *)
Definition Inv_receipt (clock : nat -> Z) (st : State) : Prop :=
  (1 <= genCalls st)%nat /\
  counter st = Z.of_nat (genCalls st) mod two64 /\
  receiptNo (order st) = receiptAt clock (genCalls st - 1) /\
  exists ks : list nat,
    receiptNo <$> allOrders st = receiptAt clock <$> ks /\
    StronglySorted lt ks /\
    Forall (fun k => (k < genCalls st - (if in_flow (pc st) then 1 else 0))%nat) ks.

(** Units on a list of lines, and on a list of orders. *)
Definition units (ls : list OrderLine) : Z :=
  fold_right (fun l a => quantity l + a) 0 ls.

Definition units_of_orders (os : list Order) : Z :=
  fold_right (fun o a => units (lines o) + a) 0 os.

Definition units_sold (m : list Item) : Z :=
  fold_right (fun it a => sold it + a) 0 m.

(** The lines of the order in progress that no recorded order holds yet. *)
Definition pending_lines (st : State) : list OrderLine :=
  if in_flow (pc st) then lines (order st) else [].

Definition Inv_units (st : State) : Prop :=
  units_sold (menu st) = units_of_orders (allOrders st) + units (pending_lines st).

(** The sum the specification describes for an order: quantity times the
    unit price at selection, over the lines in order. *)
Definition sum_at_selection (ls : list OrderLine) : float :=
  fold_left
    (fun t l => PrimFloat.add t (PrimFloat.mul (priceAtSelection l)
                                               (double_of_int (quantity l))))
    ls 0%float.

(** ** Concrete runs used as examples *)

Definition script (l : list string) : list InEvent := List.map Line l.

(** A clock that stands still. *)
Definition clock0 : nat -> Z := fun _ => 1790000000123.

(** One customer buys one Cappuccino and leaves; the shop keeps serving. *)
Definition one_sale (customer : string) : list string :=
  [customer; "y"; "1"; "1"; "1"; "n"; "n"]%string.

Definition two_sales : list InEvent :=
  script (one_sale "Ann" ++ ["y"%string] ++ one_sale "Bob").

(** A clock whose second reading is 999 999 999 ms (a little over eleven and
    a half days) after the first, which crosses a multiple of 10^9 ms. *)
Definition clock_wrap : nat -> Z :=
  fun k => match k with
           | O => 1790000000001
           | S _ => 1791000000000
           end.

(** A customer who gives a name, a dine option, and then finishes the order
    without choosing anything. *)
Definition walk_away : list InEvent := script ["Ann"; "y"; "0"]%string.

(** What the item and quantity prompts can rely on. *)
Definition Inv_pc (st : State) : Prop :=
  match pc st with
  | AskItem available =>
      available <> [] /\
      forall j, j ∈ available -> exists it, menu st !! j = Some it /\ 0 < qty it
  | AskQuantity chosen =>
      exists it, menu st !! chosen = Some it /\ 0 < qty it
  | _ => True
  end.

Definition initial_stock (m : list Item) : Z :=
  fold_right (fun it a => qty it + a) 0 m.

(** ** Vocabulary for the further properties *)

(** The line [s] answers a yes/no question with [b]: without its final
    carriage return and in lower case it reads y or yes (for true), n or no
    (for false). *)
Definition yes_no_answer (s : string) (b : bool) : Prop :=
  let l := List.map Chars.tolower (Chars.strip_cr (Chars.chars s)) in
  (b = true /\ (l = Chars.chars "y" \/ l = Chars.chars "yes")) \/
  (b = false /\ (l = Chars.chars "n" \/ l = Chars.chars "no")).

(** The event makes [readYesNo] ask again. *)
Definition asks_again (ev : InEvent) : Prop :=
  forall s b, ev = Line s -> ~ yes_no_answer s b.

(** A text with no white space at either end. *)
Definition trimmed (l : list ascii) : Prop :=
  (forall c r, l = c :: r -> Chars.isspace c = false) /\
  (forall c r, l = r ++ [c] -> Chars.isspace c = false).

Definition name_ok (s : string) : Prop :=
  s <> ""%string /\ trimmed (Chars.chars s).

Definition dine_ok (d : string) : Prop :=
  d = "Eat-In"%string \/ d = "Take-Out"%string.

(** What is known of the order's header at each prompt. *)
Definition Inv_names (st : State) : Prop :=
  Forall (fun o => name_ok (customerName o) /\ dine_ok (dineOption o)) (allOrders st) /\
  match pc st with
  | AskName | NameLivelock => True
  | AskDine => name_ok (customerName (order st))
  | _ => name_ok (customerName (order st)) /\ dine_ok (dineOption (order st))
  end.

(** The list the item prompt works with is the listing of a category of the
    current menu. *)
Definition Inv_listing (st : State) : Prop :=
  match pc st with
  | AskItem available =>
      exists cat, available = listAvailableInCategory (menu st) cat
  | _ => True
  end.

(** The stock left on the shelves. *)
Definition units_left (m : list Item) : Z :=
  fold_right (fun it a => qty it + a) 0 m.

(** ** More concrete runs *)

(** One customer buys every snack, twenty of each, and stays at the
    category prompt. *)
Definition snacks_gone : list InEvent :=
  script ["Ann"; "y"; "2"; "1"; "20"; "y"; "2"; "1"; "20"; "y";
          "2"; "1"; "20"; "y"]%string.

Example parse_plain : IntParse.parse_int (Chars.chars "12") = Some 12.
Proof. reflexivity. Qed.
Example parse_lead_ws : IntParse.parse_int (Chars.chars "  +7") = Some 7.
Proof. reflexivity. Qed.
Example parse_trailing : IntParse.parse_int (Chars.chars "7 ") = None.
Proof. reflexivity. Qed.
Example parse_garbage : IntParse.parse_int (Chars.chars "7x") = None.
Proof. reflexivity. Qed.
Example parse_overflow : IntParse.parse_int (Chars.chars "2147483648") = None.
Proof. reflexivity. Qed.
Example parse_min : IntParse.parse_int (Chars.chars "-2147483648") = Some (-2147483648).
Proof. reflexivity. Qed.
Example trim_ex : trim "  Ann Lee  " = "Ann Lee"%string.
Proof. reflexivity. Qed.

(** The specification's scenario: three Cappuccinos, then no, no. *)
Example scenario_cappuccino :
  let st := run clock0 (script ["Ann"; "y"; "1"; "1"; "3"; "n"; "n"]%string) in
  (qty <$> menu st !! 0%nat) = Some 17 /\
  (sold <$> menu st !! 0%nat) = Some 3 /\
  (total (menu st) <$> allOrders st) = [420%float] /\
  customersServed st = 1 /\ pc st = AskNext.
Proof. vm_compute. repeat split; reflexivity. Qed.

(** The specification's scenario: 0, a negative number and a number above
    the stock are refused at the quantity prompt; the whole stock is
    accepted. *)
Example scenario_quantity_bounds :
  let st := run clock0 (script ["Ann"; "y"; "1"; "2"]%string) in
  pc st = AskQuantity 1%nat /\
  step clock0 st (Line "0") = st /\
  step clock0 st (Line "-3") = st /\
  step clock0 st (Line "21") = st /\
  step clock0 st (Line "20 ") = st /\
  step clock0 st Eof = st /\
  (qty <$> menu (step clock0 st (Line "20")) !! 1%nat) = Some 0.
Proof. vm_compute. repeat split; reflexivity. Qed.

(** The specification's scenario: once every snack is sold, the category
    is refused and the program asks for a category again. *)
Example scenario_sold_out_category :
  let st := run clock0 (script ["Ann"; "y"; "2"; "1"; "20"; "y"; "2"; "1"; "20"; "y";
                                "2"; "1"; "20"; "y"]%string) in
  pc st = AskCategory /\
  isCategorySoldOut (menu st) "Snacks" = true /\
  step clock0 st (Line "2") = st /\
  (total (menu st) <$> allOrders (step clock0 st (Line "0"))) = [5400%float].
Proof. vm_compute. repeat split; reflexivity. Qed.

(** * Properties *)

(** ** The bounded integer prompt *)

Module IntLiteralFacts.
Import Chars IntParse IntLiteralSpec.

Lemma skip_ws_split l :
  exists ws, l = ws ++ skip_ws l /\ Forall (fun c => isspace c = true) ws.
Proof.
  induction l as [|c r [ws [E F]]]; simpl.
  - exists []. split; [reflexivity | constructor].
  - destruct (isspace c) eqn:Hc.
    + exists (c :: ws). split; [simpl; congruence | constructor; assumption].
    + exists []. split; [reflexivity | constructor].
Qed.

Lemma skip_ws_app ws r :
  Forall (fun c => isspace c = true) ws ->
  match r with c :: _ => isspace c = false | [] => True end ->
  skip_ws (ws ++ r) = r.
Proof.
  intros F Hr. induction F as [|c ws Hc F IH]; simpl.
  - destruct r as [|c r]; [reflexivity | simpl; rewrite Hr; reflexivity].
  - rewrite Hc. exact IH.
Qed.

Lemma digits_split acc l :
  exists ds, l = ds ++ snd (digits acc l) /\
    Forall (fun c => isdigit c = true) ds /\
    fst (digits acc l) = fold_left (fun a c => 10 * a + digit_val c) ds acc.
Proof.
  revert acc. induction l as [|c r IH]; intros acc; simpl.
  - exists []. repeat split; constructor.
  - destruct (isdigit c) eqn:Hc.
    + destruct (IH (10 * acc + digit_val c)) as [ds [E [F V]]].
      exists (c :: ds). repeat split.
      * simpl. congruence.
      * constructor; assumption.
      * exact V.
    + exists []. repeat split; constructor.
Qed.

Lemma digits_all acc ds :
  Forall (fun c => isdigit c = true) ds ->
  digits acc ds = (fold_left (fun a c => 10 * a + digit_val c) ds acc, []).
Proof.
  intros F. revert acc. induction F as [|c ds Hc F IH]; intros acc; simpl.
  - reflexivity.
  - rewrite Hc. apply IH.
Qed.

Lemma digit_not_space c : isdigit c = true -> isspace c = false.
Proof. unfold isdigit, isspace. lia. Qed.

Lemma digit_not_sign c :
  isdigit c = true -> Ascii.eqb c "-"%char = false /\ Ascii.eqb c "+"%char = false.
Proof.
  intros H. split; apply Ascii.eqb_neq; intros ->; vm_compute in H; discriminate.
Qed.

Lemma parse_int_complete l x : IntLiteral l x -> parse_int l = Some x.
Proof.
  intros [ws neg sgn ds Fws Hs Hne Fds Hr].
  destruct ds as [|d ds]; [congruence|].
  pose proof (Forall_inv Fds) as Hd. simpl in Hd.
  destruct (digit_not_sign d Hd) as [Hm Hp].
  unfold parse_int, extract.
  assert (Hskip : skip_ws (ws ++ sgn ++ d :: ds) = sgn ++ d :: ds).
  { apply skip_ws_app; [assumption|].
    destruct Hs as [[_ [-> | ->]] | [_ ->]]; simpl;
      [apply digit_not_space; assumption | reflexivity | reflexivity]. }
  rewrite Hskip.
  assert (Hsplit : split_sign (sgn ++ d :: ds) = (neg, d :: ds)).
  { destruct Hs as [[-> [-> | ->]] | [-> ->]]; simpl.
    - rewrite Hm, Hp. reflexivity.
    - reflexivity.
    - reflexivity. }
  rewrite Hsplit, Hd, (digits_all 0 (d :: ds) Fds).
  fold (value_of (d :: ds)).
  assert (Hb : (INT_MIN <=? (if neg then - value_of (d :: ds) else value_of (d :: ds)))
               && ((if neg then - value_of (d :: ds) else value_of (d :: ds)) <=? INT_MAX) = true)
    by lia.
  rewrite Hb. reflexivity.
Qed.

Lemma split_sign_split l :
  exists sgn, l = sgn ++ snd (split_sign l) /\
    ((fst (split_sign l) = false /\ (sgn = [] \/ sgn = ["+"%char])) \/
     (fst (split_sign l) = true /\ sgn = ["-"%char])).
Proof.
  destruct l as [|c r]; simpl.
  - exists []. auto.
  - destruct (Ascii.eqb c "-"%char) eqn:Hm.
    + apply Ascii.eqb_eq in Hm as ->. exists ["-"%char]. auto.
    + destruct (Ascii.eqb c "+"%char) eqn:Hp.
      * apply Ascii.eqb_eq in Hp as ->. exists ["+"%char]. auto.
      * exists []. auto.
Qed.

Lemma parse_int_sound l x : parse_int l = Some x -> IntLiteral l x.
Proof.
  unfold parse_int, extract. intros H.
  destruct (skip_ws_split l) as [ws [El Fws]].
  destruct (split_sign_split (skip_ws l)) as [sgn [Es Hs]].
  destruct (split_sign (skip_ws l)) as [neg body]. simpl in Es, Hs.
  destruct body as [|c body]; [discriminate|].
  destruct (isdigit c) eqn:Hc; [|discriminate].
  destruct (digits_split 0 (c :: body)) as [ds [Ed [Fds Vd]]].
  destruct (digits 0 (c :: body)) as [v rest]. simpl in Ed, Vd.
  fold (value_of ds) in Vd. subst v.
  destruct ((INT_MIN <=? (if neg then - value_of ds else value_of ds))
            && ((if neg then - value_of ds else value_of ds) <=? INT_MAX)) eqn:Hb;
    [|discriminate].
  destruct rest as [|? ?]; [|discriminate].
  injection H as <-.
  rewrite app_nil_r in Ed.
  rewrite El, Es, Ed.
  constructor; try assumption; [congruence | lia].
Qed.

End IntLiteralFacts.

Section BoundedPrompt.
Import IntLiteralSpec IntLiteralFacts.

Variables minVal maxVal : Z.

Lemma iter_accepts_iff ev x :
  readIntInRange_iter minVal maxVal ev = Accepted x <->
  exists s, ev = Line s /\ valid_answer minVal maxVal s x.
Proof.
  unfold valid_answer. split.
  - destruct ev as [s|]; simpl; [|discriminate].
    destruct (IntParse.parse_int _) as [y|] eqn:P; [|discriminate].
    destruct ((y <? minVal) || (y >? maxVal)) eqn:R; [discriminate|].
    intros [= ->]. exists s. split; [reflexivity|].
    split; [apply parse_int_sound; assumption | lia].
  - intros [s [-> [L R]]]. simpl.
    rewrite (parse_int_complete _ _ L).
    replace ((x <? minVal) || (x >? maxVal)) with false by lia.
    reflexivity.
Qed.

Lemma iter_rejects_iff ev :
  (forall x, readIntInRange_iter minVal maxVal ev <> Accepted x) <-> reprompts minVal maxVal ev.
Proof.
  split.
  - intros H s x -> V. apply (H x), iter_accepts_iff. eauto.
  - intros H x A. apply iter_accepts_iff in A as [s [E V]]. exact (H s x E V).
Qed.

Lemma readIntInRange_skip ev rest :
  reprompts minVal maxVal ev ->
  readIntInRange minVal maxVal (ev :: rest) = readIntInRange minVal maxVal rest.
Proof.
  intros H. pose proof (proj2 (iter_rejects_iff ev) H) as H'. simpl.
  destruct (readIntInRange_iter minVal maxVal ev) as [x| | |]; try reflexivity.
  destruct (H' x). reflexivity.
Qed.

Lemma readIntInRange_returns ins x rest :
  readIntInRange minVal maxVal ins = Some (x, rest) <->
  exists pre s, ins = pre ++ Line s :: rest /\
                Forall (reprompts minVal maxVal) pre /\ valid_answer minVal maxVal s x.
Proof.
  split.
  - induction ins as [|ev ins IH]; simpl; [discriminate|].
    destruct (readIntInRange_iter minVal maxVal ev) as [y| | |] eqn:It.
    + intros [= -> ->]. apply iter_accepts_iff in It as [s [-> V]].
      exists [], s. repeat split; [constructor | apply V | apply V | apply V].
    + intros H. destruct (IH H) as [pre [s [-> [F V]]]].
      exists (ev :: pre), s. repeat split; try apply V.
      constructor; [|assumption]. apply (proj1 (iter_rejects_iff ev)). congruence.
    + intros H. destruct (IH H) as [pre [s [-> [F V]]]].
      exists (ev :: pre), s. repeat split; try apply V.
      constructor; [|assumption]. apply (proj1 (iter_rejects_iff ev)). congruence.
    + intros H. destruct (IH H) as [pre [s [-> [F V]]]].
      exists (ev :: pre), s. repeat split; try apply V.
      constructor; [|assumption]. apply (proj1 (iter_rejects_iff ev)). congruence.
  - intros [pre [s [-> [F V]]]].
    induction F as [|ev pre Hev F IH]; simpl.
    + assert (A : readIntInRange_iter minVal maxVal (Line s) = Accepted x)
        by (apply iter_accepts_iff; eauto).
      simpl in A. rewrite A. reflexivity.
    + change (readIntInRange minVal maxVal (ev :: pre ++ Line s :: rest)
              = Some (x, rest)).
      rewrite readIntInRange_skip by assumption. exact IH.
Qed.

(** C8.  [readIntInRange] returns [x], leaving [rest] unread, exactly when
    the input read so far is a run of events that each make it prompt again
    (end-of-input, or a line that is not an integer literal in the closed
    range) followed by a line that is an integer literal, with nothing
    after its digits, whose value [x] lies in [minVal, maxVal].  So a
    returned value is always in the closed range.  An end-of-input event
    is skipped: the function prompts again and goes on with the input that
    follows. *)
Theorem readIntInRange_contract (ins : list InEvent) :
  (forall x rest,
      readIntInRange minVal maxVal ins = Some (x, rest) -> minVal <= x <= maxVal) /\
  (forall x rest,
      readIntInRange minVal maxVal ins = Some (x, rest) <->
      exists pre s, ins = pre ++ Line s :: rest /\
                    Forall (reprompts minVal maxVal) pre /\ valid_answer minVal maxVal s x) /\
  reprompts minVal maxVal Eof /\
  readIntInRange_iter minVal maxVal Eof = EofRetry /\
  readIntInRange minVal maxVal (Eof :: ins) = readIntInRange minVal maxVal ins.
Proof.
  split; [|split; [|split; [|split]]].
  - intros x rest H. apply readIntInRange_returns in H as [pre [s [_ [_ [_ R]]]]].
    exact R.
  - intros x rest. apply readIntInRange_returns.
  - intros s x E. discriminate.
  - reflexivity.
  - reflexivity.
Qed.

End BoundedPrompt.

(** ** Catalog queries *)

Section Catalog.

Variable cat : string.

Lemma in_stock_iff it :
  in_stock cat it = true <-> category it = cat /\ 0 < qty it.
Proof.
  unfold in_stock. rewrite andb_true_iff, String.eqb_eq, Z.gtb_lt. tauto.
Qed.

Lemma soldOut_from i (items : list Item) :
  isCategorySoldOut items cat = true <-> available_from i items cat = [].
Proof.
  revert i. induction items as [|it rest IH]; intros i; simpl.
  - tauto.
  - destruct (in_stock cat it); [split; discriminate | apply IH].
Qed.

Lemma elem_of_available_from i (items : list Item) (j : nat) :
  j ∈ available_from i items cat <->
  exists k it, j = (i + k)%nat /\ items !! k = Some it /\ in_stock cat it = true.
Proof.
  revert i. induction items as [|it rest IH]; intros i; simpl.
  - split; [intros H; inversion H | intros [k [x [_ [H _]]]]; discriminate].
  - assert (Tail : j ∈ available_from (S i) rest cat <->
                   exists k x, j = (i + S k)%nat /\ rest !! k = Some x /\ in_stock cat x = true).
    { rewrite IH. split; intros [k [x [E H]]]; exists k, x; (split; [lia | exact H]). }
    destruct (in_stock cat it) eqn:S0.
    + rewrite elem_of_cons, Tail. split.
      * intros [-> | [k [x [E H]]]].
        -- exists 0%nat, it. split; [lia | split; [reflexivity | assumption]].
        -- exists (S k), x. split; [assumption | exact H].
      * intros [[|k] [x [E [L S1]]]].
        -- left. lia.
        -- right. exists k, x. split; [assumption | split; assumption].
    + rewrite Tail. split.
      * intros [k [x [E H]]]. exists (S k), x. split; [assumption | exact H].
      * intros [[|k] [x [E [L S1]]]].
        -- simpl in L. injection L as <-. congruence.
        -- exists k, x. split; [assumption | split; assumption].
Qed.

Lemma available_from_sorted i (items : list Item) :
  StronglySorted lt (available_from i items cat).
Proof.
  revert i. induction items as [|it rest IH]; intros i; simpl.
  - constructor.
  - destruct (in_stock cat it); [|apply IH].
    constructor; [apply IH|].
    apply Forall_forall. intros j Hj.
    apply elem_of_available_from in Hj as [k [x [-> _]]]. lia.
Qed.

(** C7.  For every menu and category, [isCategorySoldOut] answers true
    exactly when [listAvailableInCategory] collects no item; the collected
    pointers are, in catalog order, exactly the items of the category whose
    remaining stock is positive; a category none of whose items is in the
    menu is sold out. *)
Theorem soldOut_iff_none_available (m : list Item) :
  (isCategorySoldOut m cat = true <-> listAvailableInCategory m cat = []) /\
  (forall i : nat, i ∈ listAvailableInCategory m cat <->
      exists it, m !! i = Some it /\ category it = cat /\ 0 < qty it) /\
  StronglySorted lt (listAvailableInCategory m cat) /\
  ((forall it, it ∈ m -> category it <> cat) -> isCategorySoldOut m cat = true).
Proof.
  unfold listAvailableInCategory. split; [|split; [|split]].
  - apply soldOut_from.
  - intros i. rewrite elem_of_available_from. split.
    + intros [k [it [-> [L S0]]]]. exists it. split; [exact L|].
      apply in_stock_iff. exact S0.
    + intros [it [L S0]]. exists i, it. split; [lia|]. split; [exact L|].
      apply in_stock_iff. exact S0.
  - apply available_from_sorted.
  - intros H. apply (soldOut_from 0).
    destruct (available_from 0 m cat) as [|j l] eqn:E; [reflexivity|].
    assert (Hj : j ∈ available_from 0 m cat) by (rewrite E; left).
    apply elem_of_available_from in Hj as [k [it [_ [L S0]]]].
    apply in_stock_iff in S0 as [C _].
    destruct (H it); [|assumption].
    apply list_elem_of_lookup. eauto.
Qed.

End Catalog.

(** ** Best seller *)

Section BestSeller.

Lemma scan_inv_step pre it best :
  scan_inv pre best ->
  scan_inv (pre ++ [it])
    (match best with
     | None => Some (length pre, it)
     | Some (_, b) => if sold it >? sold b then Some (length pre, it) else best
     end).
Proof.
  destruct best as [[i b]|]; simpl.
  - intros [L [M F]].
    pose proof (lookup_lt_Some _ _ _ L) as Hi.
    destruct (sold it >? sold b) eqn:G; simpl.
    + split; [|split].
      * rewrite lookup_app_r by lia. rewrite Nat.sub_diag. reflexivity.
      * intros j jt Hj. apply lookup_app_Some in Hj as [Hj | [_ Hj]].
        -- specialize (M j jt Hj). lia.
        -- destruct (j - length pre)%nat; simpl in Hj; [|discriminate].
           injection Hj as <-. lia.
      * intros j jt Hlt Hj. rewrite lookup_app_l in Hj by lia.
        specialize (M j jt Hj). lia.
    + split; [|split].
      * rewrite lookup_app_l by lia. exact L.
      * intros j jt Hj. apply lookup_app_Some in Hj as [Hj | [_ Hj]].
        -- exact (M j jt Hj).
        -- destruct (j - length pre)%nat; simpl in Hj; [|discriminate].
           injection Hj as <-. lia.
      * intros j jt Hlt Hj. rewrite lookup_app_l in Hj by lia.
        exact (F j jt Hlt Hj).
  - intros ->. simpl. split; [reflexivity|]. split.
    + intros [|j] jt Hj; simpl in Hj; [injection Hj as <-; lia | discriminate].
    + intros j jt Hlt. lia.
Qed.

Lemma scanBest_inv items : forall pre best,
  scan_inv pre best ->
  scan_inv (pre ++ items) (scanBest (length pre) items best).
Proof.
  induction items as [|it rest IH]; intros pre best H; simpl.
  - rewrite app_nil_r. exact H.
  - replace (pre ++ it :: rest) with ((pre ++ [it]) ++ rest)
      by (rewrite <- app_assoc; reflexivity).
    replace (S (length pre)) with (length (pre ++ [it]))
      by (rewrite length_app; simpl; lia).
    apply IH. apply scan_inv_step. exact H.
Qed.

Lemma first_max_unique m i b j c :
  first_max m i b -> first_max m j c -> i = j.
Proof.
  intros [Li [Mi Fi]] [Lj [Mj Fj]].
  destruct (Nat.lt_trichotomy i j) as [H | [H | H]]; [|assumption|].
  - specialize (Fj i b H Li). specialize (Mi j c Lj). lia.
  - specialize (Fi j c H Lj). specialize (Mj i b Li). lia.
Qed.

(** C6.  The summary names item [i] as best seller exactly when [i] has a
    positive sold count, no item has a larger one, and every item before
    [i] in the catalog has a strictly smaller one (so among items that share
    the maximum the first is named).  It prints the no-sales message exactly
    when no item has a positive sold count, in particular when every sold
    count is zero. *)
Theorem bestSeller_first_max (m : list Item) :
  (forall i, bestSeller m = Some i <->
      exists b, first_max m i b /\ 0 < sold b) /\
  (bestSeller m = None <-> forall it, it ∈ m -> sold it <= 0) /\
  ((forall it, it ∈ m -> sold it = 0) -> bestSeller m = None).
Proof.
  pose proof (scanBest_inv m [] None eq_refl) as Inv. simpl in Inv.
  unfold bestSeller.
  assert (NoneIff :
    match scanBest 0 m None with
    | Some (i, b) => if sold b >? 0 then Some i else None
    | None => None
    end = None <-> forall it, it ∈ m -> sold it <= 0).
  { destruct (scanBest 0 m None) as [[i0 b0]|]; simpl in Inv.
    - destruct Inv as [L [M F]]. destruct (sold b0 >? 0) eqn:G.
      + split; [discriminate|]. intros H.
        assert (b0 ∈ m) as Hb by (apply list_elem_of_lookup; eauto).
        specialize (H b0 Hb). lia.
      + split; [|reflexivity]. intros _ it Hit.
        apply list_elem_of_lookup in Hit as [j Hj]. specialize (M j it Hj). lia.
    - subst m. split; [|reflexivity]. intros _ it Hit. inversion Hit. }
  split; [|split].
  - intros i. destruct (scanBest 0 m None) as [[i0 b0]|]; simpl in Inv.
    + destruct (sold b0 >? 0) eqn:G.
      * split.
        -- intros [= <-]. exists b0. split; [exact Inv | lia].
        -- intros [b [FM _]]. f_equal. exact (first_max_unique _ _ _ _ _ Inv FM).
      * split; [discriminate|]. intros [b [FM Pos]].
        pose proof (first_max_unique _ _ _ _ _ Inv FM) as ->.
        destruct Inv as [L _], FM as [L' _]. rewrite L in L'. injection L' as ->. lia.
    + subst m. split; [discriminate|]. intros [b [[L _] _]]. discriminate.
  - exact NoneIff.
  - intros H. apply NoneIff. intros it Hit. rewrite (H it Hit). lia.
Qed.

End BestSeller.

(** ** The moves of [main] *)

Lemma iter_accepted_range lo hi ev x :
  readIntInRange_iter lo hi ev = Accepted x -> lo <= x <= hi.
Proof.
  destruct ev as [s|]; simpl; [|discriminate].
  destruct (IntParse.parse_int _) as [y|]; [|discriminate].
  destruct ((y <? lo) || (y >? hi)) eqn:R; [discriminate|].
  intros [= ->]. lia.
Qed.

Section Moves.

Variable clock : nat -> Z.

Lemma step_transition st ev : Transition clock st (step clock st ev).
Proof.
  unfold step. destruct (pc st) as [| | | |available|chosen| | | |] eqn:Hpc.
  - destruct ev as [s|].
    + destruct (String.eqb (trim s) ""); [apply T_stay|].
      apply T_name. assumption.
    + apply T_goto; [rewrite Hpc; reflexivity | auto].
  - apply T_stay.
  - destruct (readYesNo_iter ev) as [b|]; [|apply T_stay].
    apply T_dine. assumption.
  - destruct (readIntInRange_iter 0 4 ev) as [c| | |]; try apply T_stay.
    unfold chooseCategory.
    destruct (c =? 0); [apply T_finish; auto|].
    destruct (String.eqb (categoryName c) ""); [apply T_stay|].
    destruct (isCategorySoldOut (menu st) (categoryName c)); [apply T_stay|].
    destruct (listAvailableInCategory (menu st) (categoryName c)) as [|j l] eqn:E;
      [apply T_stay|].
    apply (T_list clock st (categoryName c)); [assumption | assumption | discriminate].
  - destruct (readIntInRange_iter 0 (Z.of_nat (length available)) ev) as [k| | |];
      try apply T_stay.
    unfold chooseItem.
    destruct (k =? 0); [apply T_goto; [rewrite Hpc; reflexivity | auto]|].
    destruct (available !! Z.to_nat (k - 1)) as [chosen|] eqn:L.
    + apply (T_pick clock st available); [assumption|].
      apply list_elem_of_lookup. eauto.
    + apply T_goto; [rewrite Hpc; reflexivity | auto].
  - destruct (menu st !! chosen) as [it|] eqn:L; [|apply T_stay].
    destruct (readIntInRange_iter 1 (qty it) ev) as [q| | |] eqn:R; try apply T_stay.
    apply T_commit; [assumption | assumption |].
    apply (iter_accepted_range _ _ _ _ R).
  - destruct (readYesNo_iter ev) as [[|]|]; [| |apply T_stay];
      (apply T_goto; [rewrite Hpc; reflexivity | auto]).
  - destruct (readYesNo_iter ev) as [[|]|]; [| |apply T_stay].
    + apply T_goto; [rewrite Hpc; reflexivity | auto].
    + apply T_finish. auto.
  - destruct (readYesNo_iter ev) as [[|]|]; [| |apply T_stay].
    + apply T_next. assumption.
    + apply T_done. assumption.
  - apply T_stay.
Qed.

Lemma run_from_app st ins more :
  run_from clock st (ins ++ more) = run_from clock (run_from clock st ins) more.
Proof. unfold run_from. apply fold_left_app. Qed.

Lemma run_app ins more :
  run clock (ins ++ more) = run_from clock (run clock ins) more.
Proof. apply run_from_app. Qed.

Lemma run_snoc ins ev : run clock (ins ++ [ev]) = step clock (run clock ins) ev.
Proof. rewrite run_app. reflexivity. Qed.

(** A property that holds initially and that every move keeps holds after
    any input. *)
Lemma run_from_invariant (P : State -> Prop) :
  (forall st st', Transition clock st st' -> P st -> P st') ->
  forall ins st, P st -> P (run_from clock st ins).
Proof.
  intros Keep. induction ins as [|ev ins IH]; intros st H; simpl; [exact H|].
  apply IH. apply (Keep st); [apply step_transition | exact H].
Qed.

End Moves.

(** ** The catalog invariant *)

Lemma initial_items_fresh :
  Forall (fun it => sold it = 0 /\ 0 <= qty it) initial_menu.
Proof. unfold initial_menu, newItem. repeat constructor; simpl; lia. Qed.

Lemma Inv_menu_initial st : menu st = initial_menu -> Inv_menu st.
Proof.
  intros E. unfold Inv_menu. rewrite E. split; [reflexivity|].
  intros i it0 it L0 L. rewrite L0 in L. injection L as <-.
  assert (H : it0 ∈ initial_menu) by (apply list_elem_of_lookup; eauto).
  pose proof (proj1 (Forall_forall _ _) initial_items_fresh it0 H) as [S0 Q0].
  unfold item_ok. repeat split; lia.
Qed.

Section Invariants.

Variable clock : nat -> Z.

Lemma menu_finishOrder st : menu (finishOrder st) = menu st.
Proof. unfold finishOrder. destruct (lines (order st)); reflexivity. Qed.

Lemma order_finishOrder st : order (finishOrder st) = order st.
Proof. unfold finishOrder. destruct (lines (order st)); reflexivity. Qed.

Lemma pc_finishOrder st : pc (finishOrder st) = AskNext.
Proof. unfold finishOrder. destruct (lines (order st)); reflexivity. Qed.

Lemma Inv_menu_keep st st' : Transition clock st st' -> Inv_menu st -> Inv_menu st'.
Proof.
  intros T [Len Ok].
  destruct T as [ | | | | | | |chosen it q Hpc L R| | ]; try (split; assumption).
  - unfold Inv_menu. rewrite menu_finishOrder. split; assumption.
  - unfold Inv_menu. simpl. rewrite length_insert. split; [assumption|].
    intros i it0 it1 L0 L1.
    destruct (decide (chosen = i)) as [<-|Ne].
    + rewrite list_lookup_insert_eq in L1 by (eapply lookup_lt_Some; eassumption).
      injection L1 as <-.
      destruct (Ok chosen it0 it L0 L) as (N & P & C & S & Q & So).
      unfold item_ok. simpl. repeat split; try assumption; lia.
    + rewrite list_lookup_insert_ne in L1 by assumption.
      exact (Ok i it0 it1 L0 L1).
Qed.

Lemma Inv_menu_init : Inv_menu (init clock).
Proof. apply Inv_menu_initial. reflexivity. Qed.

Lemma run_Inv_menu ins : Inv_menu (run clock ins).
Proof.
  apply (run_from_invariant clock Inv_menu Inv_menu_keep). apply Inv_menu_init.
Qed.

(** ** The orders invariant *)

Lemma Inv_orders_keep st st' :
  Transition clock st st' -> Inv_menu st -> Inv_orders st -> Inv_orders st'.
Proof.
  intros T [Len Ok] (Cur & Hist & Cnt).
  destruct T as [ | | | | | | |chosen it q Hpc L R| | ];
    try (repeat split; assumption).
  - unfold Inv_orders, finishOrder.
    destruct (lines (order st)) as [|l ls] eqn:E; simpl.
    + rewrite E. repeat split; assumption.
    + rewrite E. split; [assumption|]. split.
      * apply Forall_app. split; [assumption|].
        constructor; [|constructor]. rewrite E. split; [discriminate | assumption].
      * rewrite length_app. simpl. lia.
  - unfold Inv_orders. simpl. split; [|split; assumption].
    apply Forall_app. split; [assumption|]. constructor; [|constructor].
    assert (Hlt : (chosen < length initial_menu)%nat)
      by (rewrite <- Len; eapply lookup_lt_Some; eassumption).
    destruct (lookup_lt_is_Some_2 _ _ Hlt) as [it0 L0].
    destruct (Ok chosen it0 it L0 L) as (N & P & C & S & Q & So).
    exists chosen, it0. simpl. repeat split; try assumption; lia.
  - unfold Inv_orders, newCustomer. simpl. repeat split; try assumption. constructor.
Qed.

Lemma Inv_orders_init : Inv_orders (init clock).
Proof. unfold Inv_orders. simpl. repeat split; constructor. Qed.

Lemma run_Inv_orders ins : Inv_menu (run clock ins) /\ Inv_orders (run clock ins).
Proof.
  apply (run_from_invariant clock (fun st => Inv_menu st /\ Inv_orders st)).
  - intros st st' T [M O]. split; [eapply Inv_menu_keep | eapply Inv_orders_keep]; eassumption.
  - split; [apply Inv_menu_init | apply Inv_orders_init].
Qed.

End Invariants.

(** ** The receipt invariant *)

Lemma StronglySorted_snoc (ks : list nat) (k : nat) :
  StronglySorted lt ks -> Forall (fun j => (j < k)%nat) ks ->
  StronglySorted lt (ks ++ [k]).
Proof.
  induction 1 as [|j ks S IH F]; intros B; simpl.
  - repeat constructor.
  - pose proof (Forall_inv B) as Hj. pose proof (Forall_inv_tail B) as Bt.
    constructor; [apply IH; assumption|].
    apply Forall_app. split; [assumption | repeat constructor; assumption].
Qed.

Section Receipts.

Variable clock : nat -> Z.

Lemma counter_succ g :
  (Z.of_nat g mod two64 + 1) mod two64 = Z.of_nat (S g) mod two64.
Proof. rewrite Nat2Z.inj_succ, Zplus_mod_idemp_l. f_equal. Qed.

Lemma newCustomer_receipt st :
  counter st = Z.of_nat (genCalls st) mod two64 ->
  receiptNo (order (newCustomer clock st)) = receiptAt clock (genCalls st) /\
  counter (newCustomer clock st) = Z.of_nat (S (genCalls st)) mod two64 /\
  genCalls (newCustomer clock st) = S (genCalls st).
Proof.
  intros C. unfold newCustomer, receiptAt, generateReceiptNumber. simpl.
  rewrite C, counter_succ. repeat split.
Qed.

Lemma Inv_receipt_keep st st' :
  Transition clock st st' -> Inv_receipt clock st -> Inv_receipt clock st'.
Proof.
  intros T (G & C & R & ks & E & S & B).
  destruct T as [ |p F Hp|nm Hpc|d Hpc|Hpc|cat av Hpc _ _|av ch Hpc _|ch it q Hpc _ _|Hpc|Hpc].
  - repeat split; try assumption. exists ks. repeat split; assumption.
  - repeat split; try assumption. exists ks. repeat split; try assumption.
    simpl. rewrite F in B.
    destruct Hp as [-> | [-> | ->]]; exact B.
  - repeat split; try assumption. exists ks. repeat split; try assumption.
    simpl. rewrite Hpc in B. exact B.
  - repeat split; try assumption. exists ks. repeat split; try assumption.
    simpl. rewrite Hpc in B. exact B.
  - assert (Bf : Forall (fun k => (k < genCalls st - 1)%nat) ks)
      by (destruct Hpc as [Hpc | Hpc]; rewrite Hpc in B; exact B).
    unfold Inv_receipt, finishOrder.
    destruct (lines (order st)) as [|l ls]; simpl.
    + repeat split; try assumption. exists ks. repeat split; try assumption.
      eapply Forall_impl; [exact Bf|]. simpl. intros k Hk. lia.
    + repeat split; try assumption. exists (ks ++ [(genCalls st - 1)%nat]).
      rewrite !fmap_app, E. simpl. rewrite R. repeat split.
      * apply StronglySorted_snoc; assumption.
      * apply Forall_app. split.
        -- eapply Forall_impl; [exact Bf|]. simpl. intros k Hk. lia.
        -- repeat constructor. lia.
  - repeat split; try assumption. exists ks. repeat split; try assumption.
    simpl. rewrite Hpc in B. exact B.
  - repeat split; try assumption. exists ks. repeat split; try assumption.
    simpl. rewrite Hpc in B. exact B.
  - repeat split; try assumption. exists ks. repeat split; try assumption.
    simpl. rewrite Hpc in B. exact B.
  - destruct (newCustomer_receipt st C) as (R' & C' & G').
    unfold Inv_receipt. rewrite R', C', G'. simpl.
    rewrite Nat.sub_0_r. repeat split; try lia.
    exists ks. repeat split; try assumption.
    rewrite Hpc in B. simpl in B.
    eapply Forall_impl; [exact B|]. simpl. intros k Hk. lia.
  - repeat split; try assumption. exists ks. repeat split; try assumption.
    simpl. rewrite Hpc in B. exact B.
Qed.

Lemma Inv_receipt_init : Inv_receipt clock (init clock).
Proof.
  destruct (newCustomer_receipt boot eq_refl) as (R & C & G).
  unfold Inv_receipt, init. rewrite R, C, G. simpl. repeat split; try lia.
  exists []. repeat split; constructor.
Qed.

Lemma run_Inv_receipt ins : Inv_receipt clock (run clock ins).
Proof.
  apply (run_from_invariant clock (Inv_receipt clock) Inv_receipt_keep).
  apply Inv_receipt_init.
Qed.

End Receipts.

(** ** Stock *)

Section Stock.

Variable clock : nat -> Z.

Lemma sold_mono_step st st' i it :
  Transition clock st st' -> menu st !! i = Some it ->
  exists it', menu st' !! i = Some it' /\ sold it <= sold it'.
Proof.
  intros T L.
  destruct T as [ | | | | | | |chosen ci q Hpc Lc R| | ];
    try (exists it; split; [exact L | lia]).
  - exists it. rewrite menu_finishOrder. split; [exact L | lia].
  - simpl. destruct (decide (chosen = i)) as [<-|Ne].
    + rewrite Lc in L. injection L as ->.
      eexists. split.
      * apply list_lookup_insert_eq. eapply lookup_lt_Some; eassumption.
      * simpl. lia.
    + exists it. rewrite list_lookup_insert_ne by assumption. split; [exact L | lia].
Qed.

Lemma sold_mono_run more : forall st i it,
  menu st !! i = Some it ->
  exists it', menu (run_from clock st more) !! i = Some it' /\ sold it <= sold it'.
Proof.
  induction more as [|ev more IH]; intros st i it L; simpl.
  - exists it. split; [exact L | lia].
  - destruct (sold_mono_step st (step clock st ev) i it (step_transition clock st ev) L)
      as [it1 [L1 M1]].
    destruct (IH _ i it1 L1) as [it2 [L2 M2]].
    exists it2. split; [exact L2 | lia].
Qed.

(** C1.  After any input, the menu still has its thirteen entries, and for
    each of them the remaining stock plus the units sold equals the stock the
    entry started with, the remaining stock is not negative, and the units
    sold are at most what they will be after any further input. *)
Theorem stock_conservation (ins : list InEvent) :
  length (menu (run clock ins)) = length initial_menu /\
  forall i it0, initial_menu !! i = Some it0 ->
    exists it, menu (run clock ins) !! i = Some it /\
      qty it + sold it = qty it0 /\
      0 <= qty it /\
      forall more, exists it',
          menu (run clock (ins ++ more)) !! i = Some it' /\ sold it <= sold it'.
Proof.
  destruct (run_Inv_menu clock ins) as [Len Ok]. split; [exact Len|].
  intros i it0 L0.
  assert (Hlt : (i < length (menu (run clock ins)))%nat)
    by (rewrite Len; eapply lookup_lt_Some; eassumption).
  destruct (lookup_lt_is_Some_2 _ _ Hlt) as [it L].
  destruct (Ok i it0 it L0 L) as (_ & _ & _ & S & Q & _).
  exists it. repeat split; try assumption.
  intros more. rewrite run_app. apply sold_mono_run. exact L.
Qed.

(** C2.  When a move appends a line to the order in progress, the program
    was at the quantity prompt for the item the line points at, and the
    line's quantity is at least 1 and at most the stock that item had at that
    prompt; after the move the item's stock is the old stock minus the
    quantity, which is not negative. *)
Theorem no_oversell (ins : list InEvent) (ev : InEvent) (l : OrderLine) :
  lines (order (step clock (run clock ins) ev)) = lines (order (run clock ins)) ++ [l] ->
  exists i it it',
    item l = Some i /\ pc (run clock ins) = AskQuantity i /\
    menu (run clock ins) !! i = Some it /\
    1 <= quantity l <= qty it /\
    menu (step clock (run clock ins) ev) !! i = Some it' /\
    qty it' = qty it - quantity l /\ 0 <= qty it'.
Proof.
  set (st := run clock ins).
  pose proof (step_transition clock st ev) as T.
  intros H.
  assert (Absurd : forall ls : list OrderLine, ls = ls ++ [l] -> False).
  { intros ls E. apply (f_equal length) in E. rewrite length_app in E. simpl in E. lia. }
  destruct T as [ | | | | | | |chosen it q Hpc L R| | ];
    try (exfalso; exact (Absurd _ H)).
  - rewrite order_finishOrder in H. exfalso. exact (Absurd _ H).
  - simpl in H. apply app_inj_tail in H as [_ <-]. simpl.
    eexists chosen, it, _. repeat split; try eassumption; try apply R.
    + apply list_lookup_insert_eq. eapply lookup_lt_Some; eassumption.
    + reflexivity.
    + simpl. lia.
  - unfold newCustomer in H. simpl in H. destruct (lines (order st)); discriminate.
Qed.

End Stock.

(** The quantity 3 typed at the Cappuccino prompt of a fresh catalog. *)
Lemma no_oversell_witness :
  lines (order (step clock0 (run clock0 (script ["Ann"; "y"; "1"; "1"]%string)) (Line "3")))
  = lines (order (run clock0 (script ["Ann"; "y"; "1"; "1"]%string)))
    ++ [mkLine (Some 0%nat) 3 140] /\
  exists i it it',
    item (mkLine (Some 0%nat) 3 140) = Some i /\
    pc (run clock0 (script ["Ann"; "y"; "1"; "1"]%string)) = AskQuantity i /\
    menu (run clock0 (script ["Ann"; "y"; "1"; "1"]%string)) !! i = Some it /\
    1 <= quantity (mkLine (Some 0%nat) 3 140) <= qty it /\
    menu (step clock0 (run clock0 (script ["Ann"; "y"; "1"; "1"]%string)) (Line "3")) !! i
      = Some it' /\
    qty it' = qty it - quantity (mkLine (Some 0%nat) 3 140) /\ 0 <= qty it'.
Proof.
  split; [reflexivity|].
  apply (no_oversell clock0 (script ["Ann"; "y"; "1"; "1"]%string) (Line "3")
           (mkLine (Some 0%nat) 3 140)).
  reflexivity.
Defined.

(** ** Orders *)

Section Orders.

Variable clock : nat -> Z.

Lemma history_step st st' :
  Transition clock st st' ->
  (in_flow (pc st) = true /\ pc st' = AskNext /\ order st' = order st /\
   ((lines (order st) = [] /\
     allOrders st' = allOrders st /\ customersServed st' = customersServed st) \/
    (lines (order st) <> [] /\
     allOrders st' = allOrders st ++ [order st] /\
     customersServed st' = customersServed st + 1))) \/
  ((in_flow (pc st) = false \/ pc st' <> AskNext) /\
   allOrders st' = allOrders st /\ customersServed st' = customersServed st).
Proof.
  intros T.
  destruct T as [ |p F Hp|nm Hpc|d Hpc|Hpc|cat av Hpc _ _|av ch Hpc _|ch it q Hpc _ _|Hpc|Hpc].
  - right. split; [|split; reflexivity].
    destruct (pc st); simpl; auto; right; discriminate.
  - right. split; [|split; reflexivity].
    right. simpl. destruct Hp as [-> | [-> | ->]]; discriminate.
  - right. split; [|split; reflexivity]. right. discriminate.
  - right. split; [|split; reflexivity]. right. discriminate.
  - left. rewrite pc_finishOrder, order_finishOrder.
    split; [destruct Hpc as [-> | ->]; reflexivity|].
    split; [reflexivity|]. split; [reflexivity|].
    unfold finishOrder. destruct (lines (order st)) as [|l ls]; simpl.
    + left. auto.
    + right. repeat split. discriminate.
  - right. split; [|split; reflexivity]. right. discriminate.
  - right. split; [|split; reflexivity]. right. discriminate.
  - right. split; [|split; reflexivity]. right. discriminate.
  - right. split; [|split; reflexivity]. right. discriminate.
  - right. split; [|split; reflexivity]. right. discriminate.
Qed.

Lemma ends_selection_step st ev :
  ends_selection st ev -> step clock st ev = finishOrder st.
Proof.
  intros [[Hpc R] | [Hpc R]]; unfold step; rewrite Hpc, R; reflexivity.
Qed.

Lemma ends_selection_iff st ev :
  ends_selection st ev <->
  in_flow (pc st) = true /\ pc (step clock st ev) = AskNext.
Proof.
  split.
  - intros E. rewrite (ends_selection_step st ev E), pc_finishOrder.
    split; [|reflexivity]. destruct E as [[-> _] | [-> _]]; reflexivity.
  - intros [F P]. unfold ends_selection. unfold step in P.
    destruct (pc st) as [| | | |available|chosen| | | |] eqn:Hpc;
      simpl in F; try discriminate F.
    + destruct ev as [s|]; [destruct (String.eqb (trim s) "")|];
        simpl in P; congruence.
    + congruence.
    + destruct (readYesNo_iter ev); simpl in P; congruence.
    + destruct (readIntInRange_iter 0 4 ev) as [c| | |] eqn:R; try congruence.
      unfold chooseCategory in P.
      destruct (c =? 0) eqn:Z0.
      * apply Z.eqb_eq in Z0. subst c. left. split; reflexivity.
      * destruct (String.eqb (categoryName c) ""); [congruence|].
        destruct (isCategorySoldOut (menu st) (categoryName c)); [congruence|].
        destruct (listAvailableInCategory (menu st) (categoryName c));
          simpl in P; congruence.
    + destruct (readIntInRange_iter 0 (Z.of_nat (length available)) ev) as [k| | |];
        try congruence.
      unfold chooseItem in P. destruct (k =? 0); [simpl in P; congruence|].
      destruct (available !! Z.to_nat (k - 1)); simpl in P; congruence.
    + destruct (menu st !! chosen) as [it|]; [|congruence].
      destruct (readIntInRange_iter 1 (qty it) ev); simpl in P; congruence.
    + destruct (readYesNo_iter ev) as [[|]|]; simpl in P; congruence.
    + destruct (readYesNo_iter ev) as [[|]|] eqn:R; simpl in P; try congruence.
      right. split; reflexivity.
Qed.

(** C4.  A customer's selection flow ends with the answer 0 at the category
    prompt or with the answer no to "Continue ordering?"; these, and no other
    events, take the program from serving the customer to the "Serve next
    customer?" prompt.  That move always leaves the order as it is and, when
    the order has no line, leaves the history and the customers-served
    counter as they were; when the order has at least one line, it always
    appends the order to the history and adds exactly one to the counter.
    No other move changes the history or the counter.  So after any input
    every recorded order has at least one line and the counter equals the
    number of recorded orders. *)
Theorem cancelled_order_excluded (ins : list InEvent) (ev : InEvent) :
  let st := run clock ins in
  let st' := step clock st ev in
  Forall (fun o => lines o <> []) (allOrders st) /\
  customersServed st = Z.of_nat (length (allOrders st)) /\
  (in_flow (pc st) = true /\ pc st' = AskNext ->
     (lines (order st) = [] ->
        allOrders st' = allOrders st /\ customersServed st' = customersServed st) /\
     (lines (order st) <> [] ->
        allOrders st' = allOrders st ++ [order st] /\
        customersServed st' = customersServed st + 1)) /\
  (~ (in_flow (pc st) = true /\ pc st' = AskNext) ->
     allOrders st' = allOrders st /\ customersServed st' = customersServed st) /\
  (ends_selection st ev <-> in_flow (pc st) = true /\ pc st' = AskNext) /\
  (ends_selection st ev ->
     pc st' = AskNext /\ order st' = order st /\ menu st' = menu st /\
     (lines (order st) = [] ->
        allOrders st' = allOrders st /\ customersServed st' = customersServed st) /\
     (lines (order st) <> [] ->
        allOrders st' = allOrders st ++ [order st] /\
        customersServed st' = customersServed st + 1)) /\
  (~ ends_selection st ev ->
     allOrders st' = allOrders st /\ customersServed st' = customersServed st) /\
  (pc st = AskCategory -> ends_selection st (Line "0")) /\
  (pc st = AskContinue -> ends_selection st (Line "n")).
Proof.
  intros st st'.
  destruct (run_Inv_orders clock ins) as [_ (_ & Hist & Cnt)].
  split; [|split; [exact Cnt|]].
  { eapply Forall_impl; [exact Hist|]. intros o [H _]. exact H. }
  assert (Old :
    (in_flow (pc st) = true /\ pc st' = AskNext ->
       (lines (order st) = [] ->
          allOrders st' = allOrders st /\ customersServed st' = customersServed st) /\
       (lines (order st) <> [] ->
          allOrders st' = allOrders st ++ [order st] /\
          customersServed st' = customersServed st + 1)) /\
    (~ (in_flow (pc st) = true /\ pc st' = AskNext) ->
       allOrders st' = allOrders st /\ customersServed st' = customersServed st)).
  { destruct (history_step st st' (step_transition clock st ev))
      as [(F & P & _ & [(E & A & C) | (N & A & C)]) | ([F | P] & A & C)].
    - split; [|intros X; destruct X; auto].
      intros _. split; [auto | intros X; destruct X; exact E].
    - split; [|intros X; destruct X; auto].
      intros _. split; [intros E; destruct N; exact E | auto].
    - split; [|auto]. intros [F' _]. rewrite F in F'. discriminate.
    - split; [|auto]. intros [_ P']. destruct P. exact P'. }
  destruct Old as [Ends Other].
  pose proof (ends_selection_iff st ev) as Iff. fold st' in Iff.
  split; [exact Ends|]. split; [exact Other|]. split; [exact Iff|].
  split; [|split; [|split]].
  - intros E. pose proof (proj1 Iff E) as FP.
    pose proof (ends_selection_step st ev E) as St. fold st' in St.
    split; [apply FP|].
    split; [rewrite St; apply order_finishOrder|].
    split; [rewrite St; apply menu_finishOrder|].
    exact (Ends FP).
  - intros N. apply Other. intros FP. apply N, Iff, FP.
  - intros Hpc. left. split; [exact Hpc | reflexivity].
  - intros Hpc. right. split; [exact Hpc | reflexivity].
Qed.

(** ** Totals *)

Lemma subtotal_line_ok st l :
  Inv_menu st -> line_ok l ->
  subtotal (menu st) l
  = PrimFloat.mul (priceAtSelection l) (double_of_int (quantity l)).
Proof.
  intros [Len Ok] (i & it0 & I & L0 & P & _).
  assert (Hlt : (i < length (menu st))%nat)
    by (rewrite Len; eapply lookup_lt_Some; eassumption).
  destruct (lookup_lt_is_Some_2 _ _ Hlt) as [it L].
  destruct (Ok i it0 it L0 L) as (_ & Pr & _).
  unfold subtotal. rewrite I. simpl. rewrite L, Pr, P. reflexivity.
Qed.

Lemma total_lines_ok st o :
  Inv_menu st -> Forall line_ok (lines o) ->
  total (menu st) o = sum_at_selection (lines o).
Proof.
  intros M F. unfold total, sum_at_selection.
  generalize 0%float. induction F as [|l ls Hl F IH]; intros t; simpl.
  - reflexivity.
  - rewrite (subtotal_line_ok st l M Hl). apply IH.
Qed.

(** C5.  After any input, the total of every recorded order, computed as
    the code does through the item pointers, is the sum over its lines (in
    order, from 0.0, in binary64 arithmetic) of the unit price the item had
    when the line was created times the quantity; and the revenue of the
    summary is the sum, in history order, of those order totals. *)
Theorem totals_correct (ins : list InEvent) :
  let st := run clock ins in
  (forall o, o ∈ allOrders st -> total (menu st) o = sum_at_selection (lines o)) /\
  totalRevenue (menu st) (allOrders st)
  = fold_left (fun t o => PrimFloat.add t (total (menu st) o)) (allOrders st) 0%float /\
  totalRevenue (menu st) (allOrders st)
  = fold_left (fun t o => PrimFloat.add t (sum_at_selection (lines o)))
              (allOrders st) 0%float.
Proof.
  intros st.
  destruct (run_Inv_orders clock ins) as [M (_ & Hist & _)]. fold st in M, Hist.
  split; [|split; [reflexivity|]].
  - intros o Ho. apply total_lines_ok; [exact M|].
    exact (proj2 (proj1 (Forall_forall _ _) Hist o Ho)).
  - unfold totalRevenue. generalize 0%float.
    induction Hist as [|o os [_ Ho] Hist IH]; intros t; simpl.
    + reflexivity.
    + rewrite (total_lines_ok st o M Ho). apply IH.
Qed.

End Orders.

(** ** Frame *)

Section Frame.

Variable clock : nat -> Z.

Lemma frame_step st st' :
  Transition clock st st' ->
  length (menu st') = length (menu st) /\
  forall i it, menu st !! i = Some it ->
    exists it', menu st' !! i = Some it' /\
      name it' = name it /\ price it' = price it /\ category it' = category it /\
      (it' = it \/
       exists q, pc st = AskQuantity i /\
                 lines (order st') = lines (order st) ++ [mkLine (Some i) q (price it)] /\
                 qty it' = qty it - q /\ sold it' = sold it + q).
Proof.
  intros T.
  destruct T as [ | | | | | | |chosen ci q Hpc Lc R| | ];
    try (split; [reflexivity|]; intros i it L; exists it; repeat split; auto).
  - rewrite menu_finishOrder. split; [reflexivity|].
    intros i it L. exists it. repeat split; auto.
  - simpl. split; [apply length_insert|].
    intros i it L. destruct (decide (chosen = i)) as [<-|Ne].
    + rewrite Lc in L. injection L as ->.
      eexists. split; [apply list_lookup_insert_eq; eapply lookup_lt_Some; eassumption|].
      simpl. repeat split. right. exists q. auto.
    + exists it. rewrite list_lookup_insert_ne by assumption. repeat split; auto.
Qed.

(** C10.  A move leaves the menu's length and every item's name, unit price
    and category as they were.  An item that the move changes at all is the
    item the quantity prompt was asked for, the move appended a line for it
    to the order, and only its stock (down by the quantity) and its sold
    count (up by the quantity) differ; every other item is untouched.  So
    after any input every item has the name, price and category of the
    initial catalog, and the subtotal of every line of the order in progress
    and of every recorded order, read through the line's item pointer, is
    the quantity times the unit price recorded when the line was created. *)
Theorem commit_frame (ins : list InEvent) (ev : InEvent) :
  let st := run clock ins in
  let st' := step clock st ev in
  length (menu st') = length (menu st) /\
  (forall i it, menu st !! i = Some it ->
     exists it', menu st' !! i = Some it' /\
       name it' = name it /\ price it' = price it /\ category it' = category it /\
       (it' = it \/
        exists q, pc st = AskQuantity i /\
                  lines (order st') = lines (order st) ++ [mkLine (Some i) q (price it)] /\
                  qty it' = qty it - q /\ sold it' = sold it + q)) /\
  (forall i it, menu st !! i = Some it ->
     exists it0, initial_menu !! i = Some it0 /\
       name it = name it0 /\ price it = price it0 /\ category it = category it0) /\
  (forall l, l ∈ lines (order st) \/ (exists o, o ∈ allOrders st /\ l ∈ lines o) ->
     subtotal (menu st) l
     = PrimFloat.mul (priceAtSelection l) (double_of_int (quantity l))).
Proof.
  intros st st'.
  destruct (frame_step st st' (step_transition clock st ev)) as [Len Fr].
  destruct (run_Inv_orders clock ins) as [M (Cur & Hist & _)]. fold st in M, Cur, Hist.
  split; [exact Len|]. split; [exact Fr|]. split.
  - intros i it L. destruct M as [LenM Ok].
    assert (Hlt : (i < length initial_menu)%nat)
      by (rewrite <- LenM; eapply lookup_lt_Some; eassumption).
    destruct (lookup_lt_is_Some_2 _ _ Hlt) as [it0 L0].
    destruct (Ok i it0 it L0 L) as (N & P & C & _).
    exists it0. auto.
  - intros l [Hl | [o [Ho Hl]]]; apply subtotal_line_ok; try exact M.
    + exact (proj1 (Forall_forall _ _) Cur l Hl).
    + pose proof (proj1 (Forall_forall _ _) Hist o Ho) as [_ F].
      exact (proj1 (Forall_forall _ _) F l Hl).
Qed.

End Frame.

(** ** Receipt numbers *)

Section ReceiptNumbers.

Variable clock : nat -> Z.

Lemma time_component_range ms : 0 <= time_component ms < 1000000000.
Proof. unfold time_component. apply Z.mod_pos_bound. lia. Qed.

Lemma receiptAt_small k :
  Z.of_nat k < two64 - 1000000000 ->
  receiptAt clock k = time_component (clock k) + Z.of_nat k + 1.
Proof.
  intros B. unfold receiptAt, generateReceiptNumber. simpl.
  fold (time_component (clock k)).
  pose proof (time_component_range (clock k)) as T.
  unfold two64 in *.
  rewrite (Z.mod_small (Z.of_nat k)) by lia.
  rewrite (Z.mod_small (Z.of_nat k + 1)) by lia.
  rewrite Z.mod_small by lia. lia.
Qed.

Lemma NoDup_increasing (f : nat -> Z) (ks : list nat) :
  StronglySorted lt ks ->
  (forall j k, j ∈ ks -> k ∈ ks -> (j < k)%nat -> f j < f k) ->
  NoDup (f <$> ks).
Proof.
  induction 1 as [|k ks S IH F]; intros Inc; simpl.
  - constructor.
  - apply NoDup_cons. split.
    + intros Hin. apply list_elem_of_fmap in Hin as [j [E Hj]].
      pose proof (proj1 (Forall_forall _ _) F j Hj) as Hlt.
      assert (f k < f j) by (apply Inc; [left | right; assumption | assumption]).
      lia.
    + apply IH. intros i j Hi Hj. apply Inc; right; assumption.
Qed.

(** C3 (as amended).  If the time components (milliseconds since the epoch
    modulo 10^9) read by the calls of the generator made so far never
    decrease from one call to a later one, and fewer than 2^64 - 10^9 calls
    were made, then the recorded orders carry pairwise distinct receipt
    numbers.  In particular two calls that read the same millisecond produce
    different numbers. *)
Theorem receipts_distinct_while_time_component_grows (ins : list InEvent) :
  (forall j k, (j <= k < genCalls (run clock ins))%nat ->
               time_component (clock j) <= time_component (clock k)) ->
  Z.of_nat (genCalls (run clock ins)) < two64 - 1000000000 ->
  NoDup (receiptNo <$> allOrders (run clock ins)) /\
  forall j k, (j < k < genCalls (run clock ins))%nat -> clock j = clock k ->
              receiptAt clock j <> receiptAt clock k.
Proof.
  intros Mono Small.
  destruct (run_Inv_receipt clock ins) as (G & _ & _ & ks & E & S & B).
  assert (Bg : Forall (fun k => (k < genCalls (run clock ins))%nat) ks).
  { eapply Forall_impl; [exact B|]. simpl. intros k Hk. lia. }
  split.
  - rewrite E. apply NoDup_increasing; [exact S|].
    intros j k Hj Hk Hlt.
    pose proof (proj1 (Forall_forall _ _) Bg j Hj) as Bj.
    pose proof (proj1 (Forall_forall _ _) Bg k Hk) as Bk.
    cbv beta in Bj, Bk.
    rewrite (receiptAt_small j), (receiptAt_small k) by lia.
    assert (time_component (clock j) <= time_component (clock k))
      by (apply Mono; lia).
    lia.
  - intros j k Hjk Eq.
    rewrite (receiptAt_small j), (receiptAt_small k) by lia. rewrite Eq. lia.
Qed.

(** C9 (as amended).  The receipt number is assigned when the order is
    created, before the name is asked and before any line exists: after any
    input the order in progress carries the number produced by the latest
    call of the generator, whether or not it has lines, and the generator's
    counter is the number of calls made, modulo 2^64.  A move either keeps
    the number of calls, the counter and the order's number, or it starts the
    next customer, which makes one more call and gives the new, empty order
    its number.  In particular the move that cancels an order with no lines
    leaves the counter where the order's creation put it. *)
Theorem receipt_assigned_at_creation (ins : list InEvent) (ev : InEvent) :
  let st := run clock ins in
  let st' := step clock st ev in
  (1 <= genCalls st)%nat /\
  counter st = Z.of_nat (genCalls st) mod two64 /\
  receiptNo (order st) = receiptAt clock (genCalls st - 1) /\
  ((genCalls st' = genCalls st /\ counter st' = counter st /\
    receiptNo (order st') = receiptNo (order st)) \/
   (pc st = AskNext /\ pc st' = AskName /\ genCalls st' = S (genCalls st) /\
    lines (order st') = [] /\ receiptNo (order st') = receiptAt clock (genCalls st))).
Proof.
  intros st st'.
  destruct (run_Inv_receipt clock ins) as (G & C & R & _). fold st in G, C, R.
  split; [exact G|]. split; [exact C|]. split; [exact R|].
  pose proof (step_transition clock st ev) as T. fold st' in T. clearbody st'.
  destruct T as [ | | | | | | | |Hpc| ]; try (left; repeat split; reflexivity).
  - left. unfold finishOrder. destruct (lines (order st)); repeat split; reflexivity.
  - right. destruct (newCustomer_receipt clock st C) as (R' & _ & G').
    repeat split; assumption.
Qed.

End ReceiptNumbers.

(** Two sales under a clock that stands still. *)
Lemma receipts_distinct_witness :
  NoDup (receiptNo <$> allOrders (run clock0 two_sales)) /\
  forall j k, (j < k < genCalls (run clock0 two_sales))%nat -> clock0 j = clock0 k ->
              receiptAt clock0 j <> receiptAt clock0 k.
Proof.
  apply (receipts_distinct_while_time_component_grows clock0 two_sales).
  - intros j k _. unfold clock0. lia.
  - vm_compute. reflexivity.
Defined.

(** C3, counterexample.  Two customers each buy one Cappuccino.  The clock
    reads 1 790 000 000 001 ms when the first order is created and
    1 791 000 000 000 ms when the second is: both orders get receipt
    number 2. *)
Lemma receipts_collide :
  receiptNo <$> allOrders (run clock_wrap two_sales) = [2; 2] /\
  ~ NoDup (receiptNo <$> allOrders (run clock_wrap two_sales)).
Proof.
  assert (E : receiptNo <$> allOrders (run clock_wrap two_sales) = [2; 2])
    by (vm_compute; reflexivity).
  split; [exact E|]. rewrite E. intros H.
  apply NoDup_cons in H as [H _]. apply H. left.
Qed.

(** C9, counterexample.  A customer gives a name and a dine option and
    finishes without ordering.  The order is cancelled (nothing is recorded,
    nobody was served), yet it was given receipt number 124 and the
    generator's counter moved from 0 to 1; the next customer gets the
    following number. *)
Lemma cancelled_order_consumes_receipt :
  let st := run clock0 walk_away in
  pc st = AskNext /\ lines (order st) = [] /\
  allOrders st = [] /\ customersServed st = 0 /\
  counter boot = 0 /\ counter st = 1 /\ genCalls st = 1%nat /\
  receiptNo (order st) = 124 /\
  receiptNo (order (step clock0 st (Line "y"))) = 125.
Proof. vm_compute. repeat split; reflexivity. Qed.

(** ** Ranges of the [int] variables *)

Lemma units_app a b : units (a ++ b) = units a + units b.
Proof. unfold units. induction a as [|l a IH]; simpl; lia. Qed.

Lemma units_of_orders_app a b :
  units_of_orders (a ++ b) = units_of_orders a + units_of_orders b.
Proof. unfold units_of_orders. induction a as [|o a IH]; simpl; lia. Qed.

Lemma units_sold_insert (m : list Item) : forall i old new,
  m !! i = Some old ->
  units_sold (<[i := new]> m) = units_sold m - sold old + sold new.
Proof.
  unfold units_sold. induction m as [|it m IH]; intros [|i] old new L;
    simpl in *; try discriminate.
  - injection L as ->. lia.
  - rewrite (IH i old new L). lia.
Qed.

Lemma totalItemsSold_units m : totalItemsSold m = units_sold m.
Proof.
  unfold totalItemsSold, units_sold.
  assert (G : forall a, fold_left (fun t it => t + sold it) m a
                        = a + fold_right (fun it a => sold it + a) 0 m).
  { induction m as [|it m IH]; intros a; simpl; [lia|]. rewrite IH. lia. }
  rewrite G. lia.
Qed.

Lemma units_lines_ok ls :
  Forall line_ok ls -> Z.of_nat (length ls) <= units ls.
Proof.
  unfold units. induction 1 as [|l ls (i & it0 & _ & _ & _ & Q) F IH]; simpl; lia.
Qed.

Lemma units_of_orders_count os :
  Forall (fun o => lines o <> [] /\ Forall line_ok (lines o)) os ->
  Z.of_nat (length os) <= units_of_orders os.
Proof.
  unfold units_of_orders. induction 1 as [|o os [Ne F] Fs IH]; simpl; [lia|].
  pose proof (units_lines_ok _ F) as U.
  destruct (lines o); [congruence|]. cbn [length] in U. lia.
Qed.

Lemma units_sold_bound (m0 : list Item) : forall m,
  length m = length m0 ->
  (forall i it0 it, m0 !! i = Some it0 -> m !! i = Some it ->
                    0 <= sold it <= qty it0) ->
  0 <= units_sold m <= initial_stock m0.
Proof.
  unfold units_sold, initial_stock.
  induction m0 as [|it0 m0 IH]; intros [|it m] Len Ok; simpl in *; try lia.
  assert (0 <= sold it <= qty it0) by (apply (Ok 0%nat); reflexivity).
  assert (Len' : length m = length m0) by lia.
  specialize (IH m Len' (fun i a b => Ok (S i) a b)). lia.
Qed.

Section Ranges.

Variable clock : nat -> Z.

Lemma Inv_units_keep st st' :
  Transition clock st st' -> Inv_units st -> Inv_units st'.
Proof.
  unfold Inv_units, pending_lines. intros T U.
  destruct T as [ |p F Hp|nm Hpc|d Hpc|Hpc|cat av Hpc _ _|av ch Hpc _|ch it q Hpc L _|Hpc|Hpc];
    simpl.
  - exact U.
  - rewrite F in U. destruct Hp as [-> | [-> | ->]]; exact U.
  - rewrite Hpc in U. exact U.
  - rewrite Hpc in U. exact U.
  - assert (U' : units_sold (menu st)
                 = units_of_orders (allOrders st) + units (lines (order st)))
      by (destruct Hpc as [Hpc | Hpc]; rewrite Hpc in U; exact U).
    rewrite menu_finishOrder, pc_finishOrder. simpl.
    unfold finishOrder. destruct (lines (order st)) as [|l ls] eqn:E; simpl.
    + rewrite U'. reflexivity.
    + rewrite units_of_orders_app. simpl. rewrite E, U'. simpl. lia.
  - rewrite Hpc in U. exact U.
  - rewrite Hpc in U. exact U.
  - rewrite Hpc in U. simpl in U.
    rewrite (units_sold_insert _ _ _ _ L), units_app, U. simpl. lia.
  - rewrite Hpc in U. exact U.
  - rewrite Hpc in U. exact U.
Qed.

Lemma run_Inv_units ins : Inv_units (run clock ins).
Proof.
  apply (run_from_invariant clock Inv_units Inv_units_keep). reflexivity.
Qed.

Lemma Inv_pc_keep st st' : Transition clock st st' -> Inv_pc st -> Inv_pc st'.
Proof.
  unfold Inv_pc. intros T P.
  destruct T as [ |p F Hp|nm Hpc|d Hpc|Hpc|cat av Hpc E Ne|av ch Hpc Hin|ch it q Hpc L _|Hpc|Hpc];
    simpl; try exact I.
  - exact P.
  - destruct Hp as [-> | [-> | ->]]; exact I.
  - rewrite pc_finishOrder. exact I.
  - split; [exact Ne|]. intros j Hj. rewrite <- E in Hj.
    unfold listAvailableInCategory in Hj.
    apply elem_of_available_from in Hj as [k [x [-> [Lx S0]]]].
    apply in_stock_iff in S0 as [_ Q]. exists x. split; [exact Lx | exact Q].
  - rewrite Hpc in P. destruct P as [_ P]. exact (P ch Hin).
Qed.

Lemma run_Inv_pc ins : Inv_pc (run clock ins).
Proof. apply (run_from_invariant clock Inv_pc Inv_pc_keep). exact I. Qed.

(** No [int] of the program leaves a small range: stocks and sold counts
    stay within 0..20, line quantities within 1..20, and the units sold, the
    number of recorded orders and the customers-served counter within
    0..260.  So the 32-bit arithmetic of the source never overflows and the
    embedding's use of unbounded integers loses nothing. *)
Theorem run_int_bounds (ins : list InEvent) :
  let st := run clock ins in
  (forall it, it ∈ menu st -> 0 <= qty it <= 20 /\ 0 <= sold it <= 20) /\
  (forall l, l ∈ lines (order st) \/ (exists o, o ∈ allOrders st /\ l ∈ lines o) ->
             1 <= quantity l <= 20) /\
  0 <= totalItemsSold (menu st) <= 260 /\
  (length (allOrders st) <= 260)%nat /\
  0 <= customersServed st <= 260.
Proof.
  intros st.
  destruct (run_Inv_orders clock ins) as [[Len Ok] (Cur & Hist & Cnt)].
  pose proof (run_Inv_units ins) as U.
  fold st in Len, Ok, Cur, Hist, Cnt, U.
  assert (Stock : forall i it0, initial_menu !! i = Some it0 -> qty it0 = 20).
  { intros i it0 L0.
    assert (F : Forall (fun it => qty it = 20) initial_menu)
      by (unfold initial_menu, newItem; repeat constructor).
    apply (proj1 (Forall_forall _ _) F). apply list_elem_of_lookup. eauto. }
  assert (Item20 : forall i it, menu st !! i = Some it ->
                                0 <= qty it <= 20 /\ 0 <= sold it <= 20).
  { intros i it L.
    assert (Hlt : (i < length initial_menu)%nat)
      by (rewrite <- Len; eapply lookup_lt_Some; eassumption).
    destruct (lookup_lt_is_Some_2 _ _ Hlt) as [it0 L0].
    destruct (Ok i it0 it L0 L) as (_ & _ & _ & S & Q & So).
    pose proof (Stock i it0 L0). lia. }
  assert (Line20 : forall l, line_ok l -> 1 <= quantity l <= 20).
  { intros l (i & it0 & _ & L0 & _ & Q). pose proof (Stock i it0 L0). lia. }
  assert (Sold : 0 <= units_sold (menu st) <= 260).
  { change 260 with (initial_stock initial_menu).
    apply units_sold_bound; [exact Len|].
    intros i it0 it L0 L. destruct (Ok i it0 it L0 L) as (_ & _ & _ & S & Q & So). lia. }
  assert (Pend : 0 <= units (pending_lines st)).
  { unfold pending_lines. destruct (in_flow (pc st)); [|simpl; lia].
    pose proof (units_lines_ok _ Cur). lia. }
  pose proof (units_of_orders_count _ Hist) as Count.
  unfold Inv_units in U.
  split; [|split; [|split; [|split]]].
  - intros it Hit. apply list_elem_of_lookup in Hit as [i L]. exact (Item20 i it L).
  - intros l [Hl | [o [Ho Hl]]]; apply Line20.
    + exact (proj1 (Forall_forall _ _) Cur l Hl).
    + pose proof (proj1 (Forall_forall _ _) Hist o Ho) as [_ F].
      exact (proj1 (Forall_forall _ _) F l Hl).
  - rewrite totalItemsSold_units. exact Sold.
  - lia.
  - lia.
Qed.

(** The item prompt is only reached with a non-empty list of items that
    are in stock, and the quantity prompt only for an item with stock left,
    so that its range [1, stock] is never empty. *)
Theorem prompts_answerable (ins : list InEvent) :
  match pc (run clock ins) with
  | AskItem available =>
      available <> [] /\
      forall j, j ∈ available ->
                exists it, menu (run clock ins) !! j = Some it /\ 1 <= qty it
  | AskQuantity chosen =>
      exists it, menu (run clock ins) !! chosen = Some it /\
                 readIntInRange 1 (qty it) [Line "1"] = Some (1, [])
  | _ => True
  end.
Proof.
  pose proof (run_Inv_pc ins) as P. unfold Inv_pc in P.
  destruct (pc (run clock ins)); try exact I.
  - destruct P as [Ne P]. split; [exact Ne|].
    intros j Hj. destruct (P j Hj) as [it [L Q]]. exists it. split; [exact L | lia].
  - destruct P as [it [L Q]]. exists it. split; [exact L|].
    unfold readIntInRange, readIntInRange_iter.
    change (IntParse.parse_int (Chars.strip_cr (Chars.chars "1"))) with (Some 1).
    cbv beta iota.
    assert (G : (1 >? qty it) = false) by lia. rewrite G. reflexivity.
Qed.

Lemma livelock_absorbs (more : list InEvent) (st : State) :
  pc st = NameLivelock -> run_from clock st more = st.
Proof.
  intros Hpc. induction more as [|ev more IH]; simpl; [reflexivity|].
  unfold step. rewrite Hpc. exact IH.
Qed.

(** In the machine of [main], a failed read at the name prompt leads to
    [NameLivelock], which no event leaves. *)
Lemma name_prompt_eof_livelock (st : State) (more : list InEvent) :
  pc st = AskName ->
  run_from clock st (Eof :: more) = with_pc st NameLivelock.
Proof.
  intros Hpc. simpl. unfold step at 1. rewrite Hpc.
  apply livelock_absorbs. reflexivity.
Qed.

End Ranges.

(** * Further properties *)

(** ** Printing and reading integers *)

Module PrintFacts.
Import Chars IntParse IntLiteralSpec IntLiteralFacts.
Import Decimal.

Lemma chars_uint_digits (d : uint) :
  Forall (fun c => isdigit c = true) (chars (DecimalString.NilEmpty.string_of_uint d)).
Proof. induction d; simpl; constructor; try reflexivity; assumption. Qed.

Lemma fold_digits_uint (d : uint) : forall acc,
  fold_left (fun a c => 10 * a + digit_val c)
            (chars (DecimalString.NilEmpty.string_of_uint d)) acc
  = acc * 10 ^ Z.of_N (DecimalPos.Unsigned.usize d)
    + Z.of_N (DecimalPos.Unsigned.of_lu (rev d)).
Proof.
  induction d; intros acc;
    [ simpl; lia | .. ];
    (cbn [DecimalString.NilEmpty.string_of_uint chars list_ascii_of_string fold_left
          DecimalPos.Unsigned.usize];
     fold (chars (DecimalString.NilEmpty.string_of_uint d));
     rewrite IHd;
     match goal with
     | |- context [rev (?C d)] =>
         change (rev (C d)) with (revapp d (C Nil));
         rewrite (DecimalPos.Unsigned.of_lu_revapp d (C Nil))
     end;
     rewrite N2Z.inj_succ, Z.pow_succ_r by lia;
     rewrite N2Z.inj_add, N2Z.inj_mul, N2Z.inj_pow;
     cbn [DecimalPos.Unsigned.of_lu];
     change (digit_val _) with 0 || change (digit_val _) with 1
     || change (digit_val _) with 2 || change (digit_val _) with 3
     || change (digit_val _) with 4 || change (digit_val _) with 5
     || change (digit_val _) with 6 || change (digit_val _) with 7
     || change (digit_val _) with 8 || change (digit_val _) with 9;
     lia).
Qed.

Lemma value_of_print_unsigned (n : N) :
  value_of (chars (print_unsigned n)) = Z.of_N n.
Proof.
  unfold value_of, print_unsigned. rewrite fold_digits_uint.
  rewrite <- DecimalPos.Unsigned.of_uint_alt.
  change (Pos.of_uint (N.to_uint n)) with (N.of_uint (N.to_uint n)).
  rewrite DecimalN.Unsigned.of_to. lia.
Qed.

Lemma print_unsigned_nonempty (n : N) : chars (print_unsigned n) <> [].
Proof.
  unfold print_unsigned. destruct n as [|p]; [discriminate|].
  simpl N.to_uint. pose proof (DecimalPos.Unsigned.to_uint_nonnil p) as H.
  destruct (Pos.to_uint p); [congruence | discriminate ..].
Qed.

Lemma print_int_literal (z : Z) :
  INT_MIN <= z <= INT_MAX -> IntLiteral (chars (print_int z)) z.
Proof.
  intros R. unfold print_int. destruct (z <? 0) eqn:Neg.
  - pose proof (value_of_print_unsigned (Z.to_N (- z))) as V.
    replace z with (- value_of (chars (print_unsigned (Z.to_N (- z))))) at 2 by lia.
    apply (IntLit [] true ["-"%char] (chars (print_unsigned (Z.to_N (- z))))).
    + constructor.
    + right. auto.
    + apply print_unsigned_nonempty.
    + apply chars_uint_digits.
    + lia.
  - pose proof (value_of_print_unsigned (Z.to_N z)) as V.
    replace z with (value_of (chars (print_unsigned (Z.to_N z)))) at 2 by lia.
    apply (IntLit [] false [] (chars (print_unsigned (Z.to_N z)))).
    + constructor.
    + left. auto.
    + apply print_unsigned_nonempty.
    + apply chars_uint_digits.
    + lia.
Qed.

Lemma strip_cr_last_digit (l : list ascii) (c : ascii) :
  isdigit c = true -> strip_cr (l ++ [c]) = l ++ [c].
Proof.
  intros D. unfold strip_cr. rewrite List.rev_app_distr. simpl.
  destruct (Ascii.eqb c CR) eqn:E; [|reflexivity].
  apply Ascii.eqb_eq in E. subst c. discriminate.
Qed.

Lemma strip_cr_digits_end (pre ds : list ascii) :
  ds <> [] -> Forall (fun c => isdigit c = true) ds ->
  strip_cr (pre ++ ds) = pre ++ ds.
Proof.
  intros Ne F. destruct (exists_last Ne) as [ds' [c ->]].
  apply Forall_app in F as [_ F]. pose proof (Forall_inv F) as D.
  rewrite app_assoc. apply strip_cr_last_digit. exact D.
Qed.

Lemma strip_cr_print_int (z : Z) :
  strip_cr (chars (print_int z)) = chars (print_int z).
Proof.
  unfold print_int. destruct (z <? 0).
  - apply (strip_cr_digits_end ["-"%char]);
      [apply print_unsigned_nonempty | apply chars_uint_digits].
  - apply (strip_cr_digits_end []);
      [apply print_unsigned_nonempty | apply chars_uint_digits].
Qed.

Lemma iter_print_int lo hi z :
  INT_MIN <= z <= INT_MAX -> lo <= z <= hi ->
  readIntInRange_iter lo hi (Line (print_int z)) = Accepted z.
Proof.
  intros R B. apply iter_accepts_iff. exists (print_int z).
  split; [reflexivity|]. split; [|exact B].
  rewrite strip_cr_print_int. apply print_int_literal. exact R.
Qed.

End PrintFacts.

(** ** The yes/no prompt *)

Lemma string_eqb_of_list (l : list ascii) (s : string) :
  String.eqb (string_of_list_ascii l) s = true <-> l = Chars.chars s.
Proof.
  rewrite String.eqb_eq. unfold Chars.chars. split.
  - intros <-. symmetry. apply list_ascii_of_string_of_list_ascii.
  - intros ->. apply string_of_list_ascii_of_string.
Qed.

Lemma yesno_iter_iff ev b :
  readYesNo_iter ev = Some b <-> exists s, ev = Line s /\ yes_no_answer s b.
Proof.
  unfold yes_no_answer. destruct ev as [s|]; simpl;
    [|split; [discriminate | intros [s [E _]]; discriminate]].
  set (l := List.map Chars.tolower (Chars.strip_cr (Chars.chars s))).
  pose proof (string_eqb_of_list l "y") as Y.
  pose proof (string_eqb_of_list l "yes") as Yes.
  pose proof (string_eqb_of_list l "n") as N.
  pose proof (string_eqb_of_list l "no") as No.
  split.
  - destruct (String.eqb (string_of_list_ascii l) "y"
              || String.eqb (string_of_list_ascii l) "yes") eqn:A.
    + intros [= <-]. exists s. split; [reflexivity|]. left. split; [reflexivity|].
      apply orb_true_iff in A as [A | A];
        [left; exact (proj1 Y A) | right; exact (proj1 Yes A)].
    + destruct (String.eqb (string_of_list_ascii l) "n"
                || String.eqb (string_of_list_ascii l) "no") eqn:B; [|discriminate].
      intros [= <-]. exists s. split; [reflexivity|]. right. split; [reflexivity|].
      apply orb_true_iff in B as [B | B];
        [left; exact (proj1 N B) | right; exact (proj1 No B)].
  - intros [s' [[= <-] H]]. fold l in H. destruct H as [[-> H] | [-> H]].
    + assert (A : String.eqb (string_of_list_ascii l) "y"
                  || String.eqb (string_of_list_ascii l) "yes" = true).
      { apply orb_true_iff.
        destruct H as [H | H]; [left; exact (proj2 Y H) | right; exact (proj2 Yes H)]. }
      rewrite A. reflexivity.
    + assert (A : String.eqb (string_of_list_ascii l) "y"
                  || String.eqb (string_of_list_ascii l) "yes" = false).
      { apply orb_false_iff.
        split; apply not_true_iff_false; intros C;
          [apply (proj1 Y) in C | apply (proj1 Yes) in C];
          destruct H as [H | H]; rewrite H in C; discriminate. }
      assert (B : String.eqb (string_of_list_ascii l) "n"
                  || String.eqb (string_of_list_ascii l) "no" = true).
      { apply orb_true_iff.
        destruct H as [H | H]; [left; exact (proj2 N H) | right; exact (proj2 No H)]. }
      rewrite A, B. reflexivity.
Qed.

Lemma asks_again_iff ev : readYesNo_iter ev = None <-> asks_again ev.
Proof.
  unfold asks_again. split.
  - intros H s b -> A.
    assert (readYesNo_iter (Line s) = Some b) by (apply yesno_iter_iff; eauto).
    congruence.
  - intros H. destruct (readYesNo_iter ev) as [b|] eqn:E; [|reflexivity].
    apply yesno_iter_iff in E as [s [-> A]]. destruct (H s b eq_refl A).
Qed.

(** [readYesNo] returns [b], leaving [rest] unread, exactly when the input
    read so far is a run of events that each make it ask again (a failed
    read, or a line that is none of y, yes, n, no in any letter case)
    followed by a line that is one of the four, with [b] true for y and yes.
    A failed read is cleared and skipped. *)
Theorem readYesNo_contract (ins : list InEvent) :
  (forall b rest,
      readYesNo ins = Some (b, rest) <->
      exists pre s, ins = pre ++ Line s :: rest /\
                    Forall asks_again pre /\ yes_no_answer s b) /\
  asks_again Eof /\
  readYesNo (Eof :: ins) = readYesNo ins.
Proof.
  split; [|split; [intros s b E; discriminate | reflexivity]].
  intros b rest. split.
  - induction ins as [|ev ins IH]; simpl; [discriminate|].
    destruct (readYesNo_iter ev) as [b'|] eqn:It.
    + intros [= -> ->]. apply yesno_iter_iff in It as [s [-> A]].
      exists [], s. split; [reflexivity|]. split; [constructor | exact A].
    + intros H. destruct (IH H) as [pre [s [-> [F A]]]].
      exists (ev :: pre), s. split; [reflexivity|]. split; [|exact A].
      constructor; [apply asks_again_iff; exact It | exact F].
  - intros [pre [s [-> [F A]]]].
    induction F as [|ev pre Hev F IH]; simpl.
    + assert (E : readYesNo_iter (Line s) = Some b) by (apply yesno_iter_iff; eauto).
      simpl in E. rewrite E. reflexivity.
    + apply asks_again_iff in Hev.
      change (match readYesNo_iter ev with
              | Some b0 => Some (b0, pre ++ Line s :: rest)
              | None => readYesNo (pre ++ Line s :: rest)
              end = Some (b, rest)).
      rewrite Hev. exact IH.
Qed.

Lemma tolower_CR c : Chars.tolower c = Chars.CR <-> c = Chars.CR.
Proof.
  split; [|intros ->; reflexivity].
  unfold Chars.tolower.
  destruct ((65 <=? Chars.code c) && (Chars.code c <=? 90)) eqn:U; [|auto].
  intros H. exfalso.
  assert (R : 65 <= Chars.code c <= 90) by lia.
  apply (f_equal N_of_ascii) in H.
  unfold Chars.code in R.
  rewrite N_ascii_embedding in H by lia.
  change (N_of_ascii Chars.CR) with 13%N in H. lia.
Qed.

Lemma strip_cr_tolower l :
  List.map Chars.tolower (Chars.strip_cr l) = Chars.strip_cr (List.map Chars.tolower l).
Proof.
  unfold Chars.strip_cr. rewrite <- List.map_rev.
  destruct (List.rev l) as [|c r] eqn:E; simpl; [reflexivity|].
  destruct (Ascii.eqb c Chars.CR) eqn:C.
  - apply Ascii.eqb_eq in C. subst c.
    change (Chars.tolower Chars.CR) with Chars.CR. rewrite Ascii.eqb_refl.
    rewrite List.map_rev. reflexivity.
  - assert (C' : Ascii.eqb (Chars.tolower c) Chars.CR = false).
    { apply Ascii.eqb_neq. intros H. apply (proj1 (tolower_CR c)) in H.
      apply Ascii.eqb_neq in C. exact (C H). }
    rewrite C'. reflexivity.
Qed.

(** The yes/no prompt ignores letter case: two lines that agree once put
    in lower case get the same treatment. *)
Theorem readYesNo_ignores_case (s s' : string) :
  List.map Chars.tolower (Chars.chars s) = List.map Chars.tolower (Chars.chars s') ->
  readYesNo_iter (Line s) = readYesNo_iter (Line s').
Proof.
  intros H. simpl. rewrite !strip_cr_tolower, H. reflexivity.
Qed.

Lemma readYesNo_ignores_case_witness :
  List.map Chars.tolower (Chars.chars "YeS") = List.map Chars.tolower (Chars.chars "yes") /\
  readYesNo_iter (Line "YeS") = readYesNo_iter (Line "yes").
Proof.
  split; [reflexivity|]. apply readYesNo_ignores_case. reflexivity.
Defined.

(** ** Trimming *)

Module TrimFacts.
Import Chars.

Lemma skip_ws_head l c r : skip_ws l = c :: r -> isspace c = false.
Proof.
  induction l as [|a l IH]; simpl; [discriminate|].
  destruct (isspace a) eqn:A; [exact IH|]. intros [= <- _]. exact A.
Qed.

Lemma skip_ws_suffix l :
  exists ws, l = ws ++ skip_ws l /\ Forall (fun c => isspace c = true) ws.
Proof. apply IntLiteralFacts.skip_ws_split. Qed.

Lemma skip_ws_fixed l :
  (forall c r, l = c :: r -> isspace c = false) -> skip_ws l = l.
Proof.
  destruct l as [|c r]; [reflexivity|]. intros H. simpl.
  rewrite (H c r eq_refl). reflexivity.
Qed.

Lemma skip_ws_all_space l :
  Forall (fun c => isspace c = true) l -> skip_ws l = [].
Proof. induction 1 as [|c l H F IH]; simpl; [reflexivity|]. rewrite H. exact IH. Qed.

Lemma strip_cr_split l : strip_cr l = l \/ l = strip_cr l ++ [CR].
Proof.
  unfold strip_cr. destruct (List.rev l) as [|c r] eqn:E; [auto|].
  destruct (Ascii.eqb c CR) eqn:C; [|auto].
  apply Ascii.eqb_eq in C. subst c. right.
  rewrite <- (List.rev_involutive l), E. reflexivity.
Qed.

Lemma strip_cr_fixed l :
  (forall c r, l = r ++ [c] -> isspace c = false) -> strip_cr l = l.
Proof.
  intros H. destruct (strip_cr_split l) as [E | E]; [exact E|].
  specialize (H CR (strip_cr l) E). discriminate.
Qed.

(** The text without its trailing white space. *)
Lemma rtrim_split l :
  exists ws, l = List.rev (skip_ws (List.rev l)) ++ ws /\
             Forall (fun c => isspace c = true) ws.
Proof.
  destruct (skip_ws_suffix (List.rev l)) as [ws [E F]].
  exists (List.rev ws). split.
  - rewrite <- List.rev_app_distr, <- E, List.rev_involutive. reflexivity.
  - apply Forall_forall. intros c Hc. apply list_elem_of_In, List.in_rev in Hc.
    apply (proj1 (Forall_forall _ _) F). apply list_elem_of_In. exact Hc.
Qed.

Lemma rtrim_last l c r :
  List.rev (skip_ws (List.rev l)) = r ++ [c] -> isspace c = false.
Proof.
  intros E. apply (f_equal (@List.rev ascii)) in E.
  rewrite List.rev_involutive, List.rev_app_distr in E. simpl in E.
  exact (skip_ws_head _ _ _ E).
Qed.

Lemma rtrim_head l c r :
  (forall a t, l = a :: t -> isspace a = false) ->
  List.rev (skip_ws (List.rev l)) = c :: r -> isspace c = false.
Proof.
  intros H E. destruct (rtrim_split l) as [ws [S _]].
  rewrite E in S. simpl in S. exact (H c _ S).
Qed.

Lemma rtrim_fixed l :
  (forall c r, l = r ++ [c] -> isspace c = false) ->
  List.rev (skip_ws (List.rev l)) = l.
Proof.
  intros H. rewrite skip_ws_fixed; [apply List.rev_involutive|].
  intros c r E. apply (H c (List.rev r)).
  rewrite <- (List.rev_involutive l), E. reflexivity.
Qed.

Lemma chars_trim s :
  chars (trim s) = List.rev (skip_ws (List.rev (skip_ws (strip_cr (chars s))))).
Proof. unfold trim, chars. apply list_ascii_of_string_of_list_ascii. Qed.

Lemma trim_trimmed s : trimmed (chars (trim s)).
Proof.
  rewrite chars_trim. split.
  - intros c r E. eapply rtrim_head; [|exact E]. intros a t. apply skip_ws_head.
  - intros c r E. eapply rtrim_last. exact E.
Qed.

Lemma trim_of_trimmed l :
  trimmed l -> trim (string_of_list_ascii l) = string_of_list_ascii l.
Proof.
  intros [H T]. unfold trim, chars.
  rewrite list_ascii_of_string_of_list_ascii.
  rewrite (strip_cr_fixed l T), (skip_ws_fixed l H), (rtrim_fixed l T). reflexivity.
Qed.

End TrimFacts.

(** The result of [readLineTrimmed] on a line is the line without the white
    space at its ends (a final carriage return counts as white space): the
    line is white space, the result, white space; the result neither starts
    nor ends with white space; it is empty exactly when the line is all
    white space; trimming it again changes nothing. *)
Theorem readLineTrimmed_trims (s : string) :
  (exists pre post,
      Chars.chars s = pre ++ Chars.chars (readLineTrimmed (Line s)) ++ post /\
      Forall (fun c => Chars.isspace c = true) pre /\
      Forall (fun c => Chars.isspace c = true) post) /\
  trimmed (Chars.chars (readLineTrimmed (Line s))) /\
  (readLineTrimmed (Line s) = ""%string <->
   Forall (fun c => Chars.isspace c = true) (Chars.chars s)) /\
  readLineTrimmed (Line (readLineTrimmed (Line s))) = readLineTrimmed (Line s).
Proof.
  simpl.
  assert (Dec : exists pre post,
             Chars.chars s = pre ++ Chars.chars (trim s) ++ post /\
             Forall (fun c => Chars.isspace c = true) pre /\
             Forall (fun c => Chars.isspace c = true) post).
  { rewrite TrimFacts.chars_trim.
    destruct (TrimFacts.skip_ws_suffix (Chars.strip_cr (Chars.chars s))) as [pre [E1 F1]].
    destruct (TrimFacts.rtrim_split (Chars.skip_ws (Chars.strip_cr (Chars.chars s))))
      as [post [E2 F2]].
    destruct (TrimFacts.strip_cr_split (Chars.chars s)) as [E3 | E3].
    - exists pre, post. split; [|split; assumption].
      rewrite <- E2, <- E1. symmetry. exact E3.
    - exists pre, (post ++ [Chars.CR]). split; [|split; [assumption|]].
      + rewrite !app_assoc, <- (app_assoc pre), <- E2, <- E1. exact E3.
      + apply Forall_app. split; [assumption | repeat constructor]. }
  split; [exact Dec|]. split; [apply TrimFacts.trim_trimmed|]. split.
  - split.
    + intros E. destruct Dec as [pre [post [D [F1 F2]]]].
      rewrite E in D. simpl in D. rewrite D. apply Forall_app. split; assumption.
    + intros F. unfold trim.
      assert (F' : Forall (fun c => Chars.isspace c = true) (Chars.strip_cr (Chars.chars s))).
      { destruct (TrimFacts.strip_cr_split (Chars.chars s)) as [E | E].
        - rewrite E. exact F.
        - rewrite E in F. apply Forall_app in F as [F _]. exact F. }
      rewrite (TrimFacts.skip_ws_all_space _ F'). reflexivity.
  - rewrite <- (string_of_list_ascii_of_string (trim s)) at 1 2.
    apply TrimFacts.trim_of_trimmed. apply TrimFacts.trim_trimmed.
Qed.

(** ** The header of an order *)

Section Headers.

Variable clock : nat -> Z.

Lemma run_from_step_invariant (P : State -> Prop) :
  (forall st ev, P st -> P (step clock st ev)) ->
  forall ins st, P st -> P (run_from clock st ins).
Proof.
  intros Keep. induction ins as [|ev ins IH]; intros st H; simpl; [exact H|].
  apply IH, Keep, H.
Qed.

Lemma trim_name_ok s : String.eqb (trim s) "" = false -> name_ok (trim s).
Proof.
  intros E. split; [apply String.eqb_neq; exact E | apply TrimFacts.trim_trimmed].
Qed.

Lemma Inv_names_keep st ev : Inv_names st -> Inv_names (step clock st ev).
Proof.
  unfold Inv_names. intros [Hist Cur]. unfold step.
  destruct (pc st) as [| | | |available|chosen| | | |] eqn:Hpc.
  - destruct ev as [s|]; simpl; [|simpl; try rewrite Hpc; auto].
    destruct (String.eqb (trim s) "") eqn:E; simpl.
    + rewrite Hpc. auto.
    + split; [exact Hist | apply trim_name_ok; exact E].
  - rewrite Hpc. auto.
  - destruct (readYesNo_iter ev) as [b|]; simpl; [|simpl; try rewrite Hpc; auto].
    split; [exact Hist|]. split; [exact Cur|]. destruct b; [left | right]; reflexivity.
  - destruct (readIntInRange_iter 0 4 ev) as [c| | |]; try (simpl; try rewrite Hpc; auto).
    unfold chooseCategory, finishOrder.
    destruct (c =? 0).
    + destruct (lines (order st)); simpl; [auto|].
      split; [|exact Cur]. apply Forall_app. split; [exact Hist|].
      constructor; [exact Cur | constructor].
    + destruct (String.eqb (categoryName c) ""); [simpl; try rewrite Hpc; auto|].
      destruct (isCategorySoldOut (menu st) (categoryName c)); [simpl; try rewrite Hpc; auto|].
      destruct (listAvailableInCategory (menu st) (categoryName c));
        [simpl; try rewrite Hpc; auto | simpl; auto].
  - destruct (readIntInRange_iter 0 (Z.of_nat (length available)) ev) as [k| | |];
      try (simpl; try rewrite Hpc; auto).
    unfold chooseItem. destruct (k =? 0); [simpl; auto|].
    destruct (available !! Z.to_nat (k - 1)); simpl; auto.
  - destruct (menu st !! chosen) as [it|]; [|simpl; try rewrite Hpc; auto].
    destruct (readIntInRange_iter 1 (qty it) ev) as [q| | |];
      simpl; try rewrite Hpc; auto.
  - destruct (readYesNo_iter ev) as [[|]|]; simpl; try rewrite Hpc; auto.
  - destruct (readYesNo_iter ev) as [[|]|]; simpl; try rewrite Hpc; auto.
    unfold finishOrder. destruct (lines (order st)); simpl; [auto|].
    split; [|exact Cur]. apply Forall_app. split; [exact Hist|].
    constructor; [exact Cur | constructor].
  - destruct (readYesNo_iter ev) as [[|]|]; simpl; try rewrite Hpc; auto.
  - rewrite Hpc. auto.
Qed.

(** Every recorded order carries a customer name that is not empty and has
    no white space at its ends, and the dine option Eat-In or Take-Out.  The
    order in progress has such a name once the name prompt is passed and
    such a dine option once the dine prompt is passed. *)
Theorem recorded_orders_have_headers (ins : list InEvent) :
  let st := run clock ins in
  (forall o, o ∈ allOrders st ->
             name_ok (customerName o) /\ dine_ok (dineOption o)) /\
  (pc st <> AskName -> pc st <> NameLivelock ->
   name_ok (customerName (order st))) /\
  (pc st <> AskName -> pc st <> NameLivelock -> pc st <> AskDine ->
   dine_ok (dineOption (order st))).
Proof.
  intros st.
  assert (I : Inv_names st).
  { apply (run_from_step_invariant Inv_names Inv_names_keep).
    split; [constructor | exact I]. }
  destruct I as [Hist Cur]. split; [|split].
  - intros o Ho. exact (proj1 (Forall_forall _ _) Hist o Ho).
  - intros N1 N2. destruct (pc st); try exact Cur; try apply Cur; congruence.
  - intros N1 N2 N3. destruct (pc st); try apply Cur; congruence.
Qed.

End Headers.

(** ** The day's history and the summary *)

Lemma units_split (m0 : list Item) : forall m,
  length m = length m0 ->
  (forall i it0 it, m0 !! i = Some it0 -> m !! i = Some it ->
                    qty it + sold it = qty it0) ->
  units_left m + units_sold m = initial_stock m0.
Proof.
  unfold units_left, units_sold, initial_stock.
  induction m0 as [|it0 m0 IH]; intros [|it m] Len Ok; simpl in *; try lia.
  assert (qty it + sold it = qty it0) by (apply (Ok 0%nat); reflexivity).
  assert (Len' : length m = length m0) by lia.
  specialize (IH m Len' (fun i a b => Ok (S i) a b)). lia.
Qed.

Lemma units_sold_zero (m : list Item) :
  (forall it, it ∈ m -> 0 <= sold it) ->
  (units_sold m = 0 <-> forall it, it ∈ m -> sold it <= 0).
Proof.
  unfold units_sold. induction m as [|a m IH]; intros Pos; simpl.
  - split; [intros _ it H; inversion H | reflexivity].
  - assert (Pa : 0 <= sold a) by (apply Pos; left).
    assert (Pm : forall it, it ∈ m -> 0 <= sold it) by (intros it H; apply Pos; right; exact H).
    assert (Nn : 0 <= fold_right (fun it acc => sold it + acc) 0 m).
    { clear IH Pos. induction m as [|b m IHm]; simpl; [lia|].
      assert (0 <= sold b) by (apply Pm; left).
      assert (0 <= fold_right (fun it acc => sold it + acc) 0 m)
        by (apply IHm; intros it H'; apply Pm; right; exact H').
      lia. }
    specialize (IH Pm). split.
    + intros E it Hit. apply elem_of_cons in Hit as [-> | Hit]; [lia|].
      apply IH; [lia | exact Hit].
    + intros H. assert (sold a <= 0) by (apply H; left).
      assert (fold_right (fun it acc => sold it + acc) 0 m = 0)
        by (apply IH; intros it Hit; apply H; right; exact Hit).
      lia.
Qed.

Lemma units_of_orders_zero os :
  Forall (fun o => lines o <> [] /\ Forall line_ok (lines o)) os ->
  (units_of_orders os = 0 <-> os = []).
Proof.
  intros F. split; [|intros ->; reflexivity].
  pose proof (units_of_orders_count os F) as C.
  destruct os; [reflexivity|]. simpl length in C. lia.
Qed.

Lemma bestSeller_none_iff (m : list Item) :
  bestSeller m = None <-> forall it, it ∈ m -> sold it <= 0.
Proof.
  pose proof (scanBest_inv m [] None eq_refl) as Inv. simpl in Inv.
  unfold bestSeller.
  destruct (scanBest 0 m None) as [[i0 b0]|]; simpl in Inv.
  - destruct Inv as [L [M F]]. destruct (sold b0 >? 0) eqn:G.
    + split; [discriminate|]. intros H.
      assert (b0 ∈ m) as Hb by (apply list_elem_of_lookup; eauto).
      specialize (H b0 Hb). lia.
    + split; [|reflexivity]. intros _ it Hit.
      apply list_elem_of_lookup in Hit as [j Hj]. specialize (M j it Hj). lia.
  - subst m. split; [|reflexivity]. intros _ it Hit. inversion Hit.
Qed.

Section Summary.

Variable clock : nat -> Z.

Lemma history_grows more : forall st,
  allOrders st `prefix_of` allOrders (run_from clock st more) /\
  customersServed st <= customersServed (run_from clock st more).
Proof.
  induction more as [|ev more IH]; intros st; simpl.
  - split; [reflexivity | lia].
  - destruct (IH (step clock st ev)) as [P C].
    destruct (history_step clock st _ (step_transition clock st ev))
      as [(_ & _ & _ & [(_ & A & S) | (_ & A & S)]) | (_ & A & S)];
      rewrite A in P; rewrite S in C.
    + split; [exact P | lia].
    + split; [|lia]. etransitivity; [|exact P]. apply prefix_app_r. reflexivity.
    + split; [exact P | lia].
Qed.

(** The history only grows at its end: the orders recorded after some
    input are still there, unchanged and in the same places, after any
    further input, and the customers-served counter never goes down. *)
Theorem history_append_only (ins more : list InEvent) :
  allOrders (run clock ins) `prefix_of` allOrders (run clock (ins ++ more)) /\
  customersServed (run clock ins) <= customersServed (run clock (ins ++ more)).
Proof. rewrite run_app. apply history_grows. Qed.

(** The summary's "Total items sold" and the remaining inventory it lists
    always add up to the 260 units the day started with; and when no
    customer is being served, the total items sold is the sum of the
    quantities on the lines of the recorded orders. *)
Theorem summary_accounts_for_stock (ins : list InEvent) :
  let st := run clock ins in
  units_left (menu st) + totalItemsSold (menu st) = 260 /\
  (in_flow (pc st) = false ->
   totalItemsSold (menu st) = units_of_orders (allOrders st)).
Proof.
  intros st.
  destruct (run_Inv_menu clock ins) as [Len Ok]. fold st in Len, Ok.
  pose proof (run_Inv_units clock ins) as U. fold st in U.
  rewrite totalItemsSold_units. split.
  - change 260 with (initial_stock initial_menu).
    apply units_split; [exact Len|].
    intros i it0 it L0 L. destruct (Ok i it0 it L0 L) as (_ & _ & _ & S & _). exact S.
  - intros F. unfold Inv_units, pending_lines in U. rewrite F in U. simpl in U. lia.
Qed.

(** When no customer is being served (in particular when the summary is
    printed), the summary says "No sales recorded." exactly when no order
    was recorded. *)
Theorem no_sales_iff_no_orders (ins : list InEvent) :
  in_flow (pc (run clock ins)) = false ->
  (bestSeller (menu (run clock ins)) = None <-> allOrders (run clock ins) = []).
Proof.
  intros F.
  destruct (run_Inv_orders clock ins) as [[Len Ok] (_ & Hist & _)].
  pose proof (run_Inv_units clock ins) as U.
  unfold Inv_units, pending_lines in U. rewrite F in U. simpl in U.
  rewrite bestSeller_none_iff, <- units_sold_zero, <- (units_of_orders_zero _ Hist).
  - lia.
  - intros it Hit. apply list_elem_of_lookup in Hit as [i L].
    assert (Hlt : (i < length initial_menu)%nat)
      by (rewrite <- Len; eapply lookup_lt_Some; eassumption).
    destruct (lookup_lt_is_Some_2 _ _ Hlt) as [it0 L0].
    destruct (Ok i it0 it L0 L) as (_ & _ & _ & _ & _ & S). exact S.
Qed.

End Summary.

Lemma no_sales_iff_no_orders_witness :
  in_flow (pc (run clock0 (script ["Ann"; "y"; "0"; "n"]%string))) = false /\
  (bestSeller (menu (run clock0 (script ["Ann"; "y"; "0"; "n"]%string))) = None <->
   allOrders (run clock0 (script ["Ann"; "y"; "0"; "n"]%string)) = []).
Proof.
  split; [reflexivity|]. apply (no_sales_iff_no_orders clock0). reflexivity.
Defined.

(** ** Stock only goes down *)

Lemma soldOut_iff_all (m : list Item) (cat : string) :
  isCategorySoldOut m cat = true <->
  forall i it, m !! i = Some it -> category it = cat -> qty it <= 0.
Proof.
  induction m as [|a m IH]; simpl.
  - split; [intros _ i it L; discriminate | reflexivity].
  - destruct (in_stock cat a) eqn:Hs.
    + apply in_stock_iff in Hs as [C Q]. split; [discriminate|].
      intros H. specialize (H 0%nat a eq_refl C). lia.
    + rewrite IH. split.
      * intros H [|i] it L C.
        -- simpl in L. injection L as <-.
           destruct (Z_lt_le_dec 0 (qty a)) as [Q|Q]; [|exact Q].
           assert (in_stock cat a = true) by (apply in_stock_iff; auto).
           congruence.
        -- exact (H i it L C).
      * intros H i it L C. exact (H (S i) it L C).
Qed.

Section StockDown.

Variable clock : nat -> Z.

Lemma qty_down_step st st' i it :
  Transition clock st st' -> menu st !! i = Some it ->
  exists it', menu st' !! i = Some it' /\
              category it' = category it /\ qty it' <= qty it.
Proof.
  intros T L.
  destruct T as [ | | | | | | |chosen ci q Hpc Lc R| | ];
    try (exists it; split; [exact L | split; [reflexivity | lia]]).
  - exists it. rewrite menu_finishOrder. split; [exact L | split; [reflexivity | lia]].
  - simpl. destruct (decide (chosen = i)) as [<-|Ne].
    + rewrite Lc in L. injection L as ->.
      eexists. split; [apply list_lookup_insert_eq; eapply lookup_lt_Some; eassumption|].
      simpl. split; [reflexivity | lia].
    + exists it. rewrite list_lookup_insert_ne by assumption.
      split; [exact L | split; [reflexivity | lia]].
Qed.

Lemma qty_down_run more : forall st i it,
  menu st !! i = Some it ->
  exists it', menu (run_from clock st more) !! i = Some it' /\
              category it' = category it /\ qty it' <= qty it.
Proof.
  induction more as [|ev more IH]; intros st i it L; simpl.
  - exists it. split; [exact L | split; [reflexivity | lia]].
  - destruct (qty_down_step st _ i it (step_transition clock st ev) L) as [it1 (L1 & C1 & Q1)].
    destruct (IH _ i it1 L1) as [it2 (L2 & C2 & Q2)].
    exists it2. split; [exact L2 | split; [congruence | lia]].
Qed.

Lemma length_menu_run_from more : forall st,
  length (menu (run_from clock st more)) = length (menu st).
Proof.
  induction more as [|ev more IH]; intros st; simpl; [reflexivity|].
  rewrite IH. apply (frame_step clock st _ (step_transition clock st ev)).
Qed.

(** A category that is sold out stays sold out for the rest of the run:
    nothing ever puts stock back. *)
Theorem sold_out_is_final (ins more : list InEvent) (cat : string) :
  isCategorySoldOut (menu (run clock ins)) cat = true ->
  isCategorySoldOut (menu (run clock (ins ++ more))) cat = true.
Proof.
  rewrite run_app. rewrite !soldOut_iff_all. intros H i it' L' C'.
  assert (Hlt : (i < length (menu (run clock ins)))%nat).
  { rewrite <- (length_menu_run_from more). eapply lookup_lt_Some; eassumption. }
  destruct (lookup_lt_is_Some_2 _ _ Hlt) as [it L].
  destruct (qty_down_run more _ i it L) as [it2 (L2 & C2 & Q2)].
  rewrite L' in L2. injection L2 as <-.
  assert (qty it <= 0) by (apply (H i it L); congruence). lia.
Qed.

End StockDown.

Lemma sold_out_is_final_witness :
  isCategorySoldOut (menu (run clock0 snacks_gone)) "Snacks" = true /\
  isCategorySoldOut
    (menu (run clock0 (snacks_gone ++ script ["2"; "1"; "1"; "5"; "n"; "n"; "y"]%string)))
    "Snacks" = true.
Proof.
  split; [vm_compute; reflexivity|].
  apply (sold_out_is_final clock0). vm_compute. reflexivity.
Defined.

(** ** Orders once recorded *)

Section Recorded.

Variable clock : nat -> Z.

(** The total of a recorded order never changes: computed at any later
    point of the run (for the summary's revenue) it is the amount that was
    computed when the order was recorded (for the receipt). *)
Theorem recorded_total_is_final (ins more : list InEvent) (o : Order) :
  o ∈ allOrders (run clock ins) ->
  total (menu (run clock (ins ++ more))) o = total (menu (run clock ins)) o.
Proof.
  intros Ho.
  destruct (run_Inv_orders clock ins) as [M (_ & Hist & _)].
  pose proof (run_Inv_menu clock (ins ++ more)) as M'.
  pose proof (proj1 (Forall_forall _ _) Hist o Ho) as [_ F].
  rewrite (total_lines_ok _ o M F), (total_lines_ok _ o M' F). reflexivity.
Qed.

(** The item pointer of every line, of the order in progress and of every
    recorded order, is never null and always points at an entry of the
    menu, which still has the name and price of the initial catalog; so the
    null branches of [OrderLine::subtotal] and of the receipt's item column
    are never taken. *)
Theorem lines_point_into_menu (ins : list InEvent) (l : OrderLine) :
  l ∈ lines (order (run clock ins)) \/
  (exists o, o ∈ allOrders (run clock ins) /\ l ∈ lines o) ->
  exists i it it0,
    item l = Some i /\ deref (menu (run clock ins)) (item l) = Some it /\
    initial_menu !! i = Some it0 /\ name it = name it0 /\ price it = price it0.
Proof.
  intros H.
  destruct (run_Inv_orders clock ins) as [[Len Ok] (Cur & Hist & _)].
  assert (LO : line_ok l).
  { destruct H as [Hl | [o [Ho Hl]]].
    - exact (proj1 (Forall_forall _ _) Cur l Hl).
    - pose proof (proj1 (Forall_forall _ _) Hist o Ho) as [_ F].
      exact (proj1 (Forall_forall _ _) F l Hl). }
  destruct LO as (i & it0 & I & L0 & _).
  assert (Hlt : (i < length (menu (run clock ins)))%nat)
    by (rewrite Len; eapply lookup_lt_Some; eassumption).
  destruct (lookup_lt_is_Some_2 _ _ Hlt) as [it L].
  destruct (Ok i it0 it L0 L) as (N & P & _).
  exists i, it, it0. rewrite I. simpl. auto.
Qed.

(** While fewer than 2^64 - 10^9 customers have been started, every receipt
    number, of a recorded order or of the order in progress, lies between 1
    and 999 999 999 plus the number of customers started; in particular it
    is never 0, the value an [Order] holds before a number is assigned. *)
Theorem receipt_number_range (ins : list InEvent) :
  Z.of_nat (genCalls (run clock ins)) < two64 - 1000000000 ->
  (forall o, o ∈ allOrders (run clock ins) \/ o = order (run clock ins) ->
             1 <= receiptNo o <= 999999999 + Z.of_nat (genCalls (run clock ins))).
Proof.
  intros Small o Ho.
  destruct (run_Inv_receipt clock ins) as (G & _ & R & ks & E & _ & B).
  assert (K : exists k, (k < genCalls (run clock ins))%nat /\
                        receiptNo o = receiptAt clock k).
  { destruct Ho as [Ho | ->].
    - assert (Hr : receiptNo o ∈ receiptNo <$> allOrders (run clock ins))
        by (apply list_elem_of_fmap; eauto).
      rewrite E in Hr. apply list_elem_of_fmap in Hr as [k [Ek Hk]].
      exists k. split; [|exact Ek].
      pose proof (proj1 (Forall_forall _ _) B k Hk) as Bk. cbv beta in Bk. lia.
    - exists (genCalls (run clock ins) - 1)%nat. split; [lia | exact R]. }
  destruct K as [k [Hk ->]].
  rewrite (receiptAt_small clock k) by lia.
  pose proof (time_component_range (clock k)). lia.
Qed.

End Recorded.

Lemma recorded_total_is_final_witness :
  mkOrder "Ann" "Eat-In" [mkLine (Some 0%nat) 1 140] 124
    ∈ allOrders (run clock0 (script (one_sale "Ann"))) /\
  total (menu (run clock0 (script (one_sale "Ann") ++ script ("y" :: one_sale "Bob")%string)))
        (mkOrder "Ann" "Eat-In" [mkLine (Some 0%nat) 1 140] 124)
  = total (menu (run clock0 (script (one_sale "Ann"))))
          (mkOrder "Ann" "Eat-In" [mkLine (Some 0%nat) 1 140] 124).
Proof.
  assert (H : mkOrder "Ann" "Eat-In" [mkLine (Some 0%nat) 1 140] 124
                ∈ allOrders (run clock0 (script (one_sale "Ann"))))
    by (vm_compute; left).
  split; [exact H|].
  apply (recorded_total_is_final clock0). exact H.
Defined.

Lemma lines_point_into_menu_witness :
  (mkLine (Some 0%nat) 1 140 ∈ lines (order (run clock0 (script (one_sale "Ann")))) \/
   (exists o, o ∈ allOrders (run clock0 (script (one_sale "Ann"))) /\
              mkLine (Some 0%nat) 1 140 ∈ lines o)) /\
  exists i it it0,
    item (mkLine (Some 0%nat) 1 140) = Some i /\
    deref (menu (run clock0 (script (one_sale "Ann")))) (item (mkLine (Some 0%nat) 1 140))
      = Some it /\
    initial_menu !! i = Some it0 /\ name it = name it0 /\ price it = price it0.
Proof.
  assert (H : mkLine (Some 0%nat) 1 140 ∈ lines (order (run clock0 (script (one_sale "Ann")))))
    by (vm_compute; left).
  split; [left; exact H|].
  apply (lines_point_into_menu clock0). left. exact H.
Defined.

Lemma receipt_number_range_witness :
  Z.of_nat (genCalls (run clock0 two_sales)) < two64 - 1000000000 /\
  (forall o, o ∈ allOrders (run clock0 two_sales) \/ o = order (run clock0 two_sales) ->
             1 <= receiptNo o <= 999999999 + Z.of_nat (genCalls (run clock0 two_sales))).
Proof.
  split; [vm_compute; reflexivity|].
  apply (receipt_number_range clock0). vm_compute. reflexivity.
Defined.

(** ** More on the bounded integer prompt *)

Lemma strip_cr_crlf (l : list ascii) : Chars.strip_cr (l ++ [Chars.CR]) = l.
Proof.
  unfold Chars.strip_cr. rewrite List.rev_app_distr. simpl.
  apply List.rev_involutive.
Qed.

Lemma int_literal_range l x :
  IntLiteralSpec.IntLiteral l x -> IntParse.INT_MIN <= x <= IntParse.INT_MAX.
Proof. intros [ws neg sgn ds _ _ _ _ R]. exact R. Qed.

(** An empty range makes [readIntInRange] prompt for ever, whatever is
    typed; a value it returns fits an [int]; and returning consumes at least
    one input event. *)
Theorem readIntInRange_edges (minVal maxVal : Z) (ins : list InEvent) :
  (maxVal < minVal -> readIntInRange minVal maxVal ins = None) /\
  (forall x rest, readIntInRange minVal maxVal ins = Some (x, rest) ->
                  IntParse.INT_MIN <= x <= IntParse.INT_MAX /\
                  (length rest < length ins)%nat).
Proof.
  split.
  - intros Empty. destruct (readIntInRange minVal maxVal ins) as [[x rest]|] eqn:E;
      [|reflexivity].
    apply readIntInRange_returns in E as [pre [s [_ [_ [_ R]]]]]. lia.
  - intros x rest E.
    apply readIntInRange_returns in E as [pre [s [-> [_ [L _]]]]].
    split; [exact (int_literal_range _ _ L)|].
    rewrite length_app. simpl. lia.
Qed.

(** Every number of the range, typed the way the program itself prints
    numbers (as in its "between ... and ..." message), is accepted at once,
    with or without a carriage return at the end of the line. *)
Theorem printed_number_is_accepted (minVal maxVal z : Z) (rest : list InEvent) :
  IntParse.INT_MIN <= z <= IntParse.INT_MAX ->
  minVal <= z <= maxVal ->
  readIntInRange minVal maxVal (Line (print_int z) :: rest) = Some (z, rest) /\
  readIntInRange minVal maxVal
    (Line (print_int z ++ String Chars.CR "") :: rest) = Some (z, rest).
Proof.
  intros R B. split.
  - cbn [readIntInRange]. rewrite (PrintFacts.iter_print_int _ _ _ R B). reflexivity.
  - assert (A : readIntInRange_iter minVal maxVal
                  (Line (print_int z ++ String Chars.CR "")) = Accepted z).
    { apply iter_accepts_iff. eexists. split; [reflexivity|]. split; [|exact B].
      unfold Chars.chars.
      assert (E : list_ascii_of_string (print_int z ++ String Chars.CR "")
                  = list_ascii_of_string (print_int z) ++ [Chars.CR]).
      { generalize (print_int z). intros s. induction s as [|c s IH]; simpl;
          [reflexivity | rewrite IH; reflexivity]. }
      rewrite E, strip_cr_crlf. apply PrintFacts.print_int_literal. exact R. }
    cbn [readIntInRange]. rewrite A. reflexivity.
Qed.

Lemma printed_number_is_accepted_witness :
  (IntParse.INT_MIN <= -7 <= IntParse.INT_MAX) /\ (-10 <= -7 <= 20) /\
  readIntInRange (-10) 20 (Line (print_int (-7)) :: [Eof]) = Some (-7, [Eof]) /\
  readIntInRange (-10) 20
    (Line (print_int (-7) ++ String Chars.CR "") :: [Eof]) = Some (-7, [Eof]).
Proof.
  split; [vm_compute; split; discriminate|].
  split; [lia|].
  apply (printed_number_is_accepted (-10) 20 (-7) [Eof]); [vm_compute; split; discriminate | lia].
Defined.

(** ** From the menu on the screen to a line on the order *)

Lemma length_available_from (cat : string) (items : list Item) : forall i,
  (length (available_from i items cat) <= length items)%nat.
Proof.
  induction items as [|it items IH]; intros i; simpl; [lia|].
  destruct (in_stock cat it); simpl; specialize (IH (S i)); lia.
Qed.

Lemma item_number_print_int (i : nat) : item_number i = print_int (Z.of_nat (S i)).
Proof.
  unfold item_number, print_int.
  assert (E : (Z.of_nat (S i) <? 0) = false) by (apply Z.ltb_ge; lia).
  rewrite E. f_equal. lia.
Qed.

Lemma initial_categories :
  Forall (fun it0 => exists c, 1 <= c <= 4 /\ category it0 = categoryName c) initial_menu.
Proof.
  unfold initial_menu, newItem.
  repeat (constructor;
          [first [ exists 1; split; [lia | reflexivity]
                 | exists 2; split; [lia | reflexivity]
                 | exists 3; split; [lia | reflexivity]
                 | exists 4; split; [lia | reflexivity] ]|]).
  constructor.
Qed.

Lemma string_app_assoc (a b c : string) :
  ((a ++ b) ++ c)%string = (a ++ (b ++ c))%string.
Proof. induction a as [|x a IH]; simpl; [reflexivity | rewrite IH; reflexivity]. Qed.

Lemma categoryName_inj c c' :
  1 <= c <= 4 -> 1 <= c' <= 4 -> categoryName c = categoryName c' -> c = c'.
Proof.
  intros R R' E.
  assert (C : c = 1 \/ c = 2 \/ c = 3 \/ c = 4) by lia.
  assert (C' : c' = 1 \/ c' = 2 \/ c' = 3 \/ c' = 4) by lia.
  destruct C as [-> | [-> | [-> | ->]]], C' as [-> | [-> | [-> | ->]]];
    first [reflexivity | discriminate E].
Qed.

Section Flow.

Variable clock : nat -> Z.

Lemma category_choice_step st c :
  pc st = AskCategory -> 1 <= c <= 4 ->
  step clock st (Line (print_int c))
  = if isCategorySoldOut (menu st) (categoryName c) then st
    else with_pc st (AskItem (listAvailableInCategory (menu st) (categoryName c))).
Proof.
  intros Hpc R. unfold step. rewrite Hpc.
  rewrite (PrintFacts.iter_print_int 0 4 c) by (unfold IntParse.INT_MIN, IntParse.INT_MAX; lia).
  unfold chooseCategory.
  replace (c =? 0) with false by lia.
  assert (Ne : String.eqb (categoryName c) "" = false).
  { assert (C : c = 1 \/ c = 2 \/ c = 3 \/ c = 4) by lia.
    destruct C as [-> | [-> | [-> | ->]]]; reflexivity. }
  rewrite Ne.
  destruct (isCategorySoldOut (menu st) (categoryName c)) eqn:S0; [reflexivity|].
  destruct (listAvailableInCategory (menu st) (categoryName c)) as [|j l] eqn:E;
    [|reflexivity].
  apply (soldOut_from (categoryName c) 0) in E. congruence.
Qed.

Lemma item_choice_step st available k p :
  pc st = AskItem available -> available !! k = Some p ->
  Z.of_nat (length available) <= IntParse.INT_MAX ->
  step clock st (Line (item_number k)) = with_pc st (AskQuantity p).
Proof.
  intros Hpc L B. unfold step. rewrite Hpc, item_number_print_int.
  pose proof (lookup_lt_Some _ _ _ L) as Hk.
  rewrite (PrintFacts.iter_print_int 0 (Z.of_nat (length available)) (Z.of_nat (S k)))
    by (unfold IntParse.INT_MIN in *; lia).
  unfold chooseItem.
  assert (E : (Z.of_nat (S k) =? 0) = false) by (apply Z.eqb_neq; lia).
  rewrite E.
  replace (Z.to_nat (Z.of_nat (S k) - 1)) with k by lia.
  rewrite L. reflexivity.
Qed.

Lemma quantity_one_step st chosen it :
  pc st = AskQuantity chosen -> menu st !! chosen = Some it -> 1 <= qty it ->
  step clock st (Line "1") = addToOrder st chosen it 1.
Proof.
  intros Hpc L Q. unfold step. rewrite Hpc, L.
  unfold readIntInRange_iter.
  change (IntParse.parse_int (Chars.strip_cr (Chars.chars "1"))) with (Some 1).
  cbv beta iota.
  assert (G : (1 >? qty it) = false) by lia. rewrite G. reflexivity.
Qed.

Lemma Inv_listing_keep st st' :
  Transition clock st st' -> Inv_listing st -> Inv_listing st'.
Proof.
  unfold Inv_listing. intros T P.
  destruct T as [ |p F Hp|nm Hpc|d Hpc|Hpc|cat av Hpc E Ne|av ch Hpc Hin|ch it q Hpc L _|Hpc|Hpc];
    simpl; try exact I.
  - exact P.
  - destruct Hp as [-> | [-> | ->]]; exact I.
  - rewrite pc_finishOrder. exact I.
  - exists cat. symmetry. exact E.
Qed.

Lemma run_listing_short ins available :
  pc (run clock ins) = AskItem available ->
  Z.of_nat (length available) <= 13.
Proof.
  intros Hpc.
  assert (P : Inv_listing (run clock ins))
    by (apply (run_from_invariant clock Inv_listing Inv_listing_keep); exact I).
  unfold Inv_listing in P. rewrite Hpc in P. destruct P as [cat ->].
  destruct (run_Inv_menu clock ins) as [Len _].
  pose proof (length_available_from cat (menu (run clock ins)) 0) as B.
  unfold listAvailableInCategory. rewrite Len in B. simpl in B. lia.
Qed.

(** At the item prompt, typing the number that the listing printed in
    front of an item moves on to the quantity prompt for that very item, and
    typing 0 goes back to the category prompt. *)
Theorem listed_number_selects_item
  (ins : list InEvent) (available : list nat) (k p : nat) :
  pc (run clock ins) = AskItem available ->
  available !! k = Some p ->
  step clock (run clock ins) (Line (item_number k))
  = with_pc (run clock ins) (AskQuantity p) /\
  step clock (run clock ins) (Line "0") = with_pc (run clock ins) AskCategory.
Proof.
  intros Hpc L. pose proof (run_listing_short ins available Hpc) as B. split.
  - apply (item_choice_step _ available); [exact Hpc | exact L |].
    unfold IntParse.INT_MAX. lia.
  - unfold step. rewrite Hpc. unfold readIntInRange_iter.
    change (IntParse.parse_int (Chars.strip_cr (Chars.chars "0"))) with (Some 0).
    cbv beta iota.
    assert (G : (0 >? Z.of_nat (length available)) = false)
      by (rewrite Z.gtb_ltb; apply Z.ltb_ge; lia).
    rewrite G. reflexivity.
Qed.

(** The menu that [showCategories] prints agrees with what the category
    prompt does.  For each number 1 to 4 the menu has a line made of that
    number, the name of the category the number selects, and the sold-out
    marker exactly when typing the number is refused (the state is left as it
    is); without the marker, typing the number leads to the item prompt with
    the non-empty list of that category's items in stock. *)
Theorem category_menu_matches_prompt (st : State) (c : Z) :
  pc st = AskCategory -> 1 <= c <= 4 ->
  (exists before after,
      showCategories (menu st)
      = (before ++ printCategory (menu st) c (categoryName c) ++ after)%string) /\
  (isCategorySoldOut (menu st) (categoryName c) = true ->
   printCategory (menu st) c (categoryName c)
   = (print_int c ++ ") " ++ categoryName c
      ++ Colors.SOLD_OUT ++ " [SOLD OUT]" ++ Colors.RESET ++ NL)%string /\
   step clock st (Line (print_int c)) = st) /\
  (isCategorySoldOut (menu st) (categoryName c) = false ->
   printCategory (menu st) c (categoryName c)
   = (print_int c ++ ") " ++ categoryName c ++ NL)%string /\
   step clock st (Line (print_int c))
   = with_pc st (AskItem (listAvailableInCategory (menu st) (categoryName c))) /\
   listAvailableInCategory (menu st) (categoryName c) <> []).
Proof.
  intros Hpc R.
  pose proof (category_choice_step st c Hpc R) as St.
  split; [|split].
  - assert (C : c = 1 \/ c = 2 \/ c = 3 \/ c = 4) by lia.
    unfold showCategories.
    destruct C as [-> | [-> | [-> | ->]]]; simpl categoryName.
    + exists (Colors.SUBTLE ++ "Menu categories:" ++ NL ++ Colors.RESET)%string.
      eexists. reflexivity.
    + exists (Colors.SUBTLE ++ "Menu categories:" ++ NL ++ Colors.RESET
              ++ printCategory (menu st) 1 "Beverages")%string.
      eexists. rewrite !string_app_assoc. reflexivity.
    + exists (Colors.SUBTLE ++ "Menu categories:" ++ NL ++ Colors.RESET
              ++ printCategory (menu st) 1 "Beverages"
              ++ printCategory (menu st) 2 "Snacks")%string.
      eexists. rewrite !string_app_assoc. reflexivity.
    + exists (Colors.SUBTLE ++ "Menu categories:" ++ NL ++ Colors.RESET
              ++ printCategory (menu st) 1 "Beverages"
              ++ printCategory (menu st) 2 "Snacks"
              ++ printCategory (menu st) 3 "Meals")%string.
      eexists. rewrite !string_app_assoc. reflexivity.
  - intros S0. unfold printCategory. rewrite S0 in *. split; [reflexivity | exact St].
  - intros S0. unfold printCategory. rewrite S0 in *.
    split; [reflexivity|]. split; [exact St|].
    intros E. apply (soldOut_from (categoryName c) 0) in E. congruence.
Qed.

End Flow.

Lemma listed_number_selects_item_witness :
  pc (run clock0 (script ["Ann"; "y"; "3"]%string)) = AskItem [7; 8; 9]%nat /\
  [7; 8; 9]%nat !! 1%nat = Some 8%nat /\
  step clock0 (run clock0 (script ["Ann"; "y"; "3"]%string)) (Line (item_number 1))
  = with_pc (run clock0 (script ["Ann"; "y"; "3"]%string)) (AskQuantity 8) /\
  step clock0 (run clock0 (script ["Ann"; "y"; "3"]%string)) (Line "0")
  = with_pc (run clock0 (script ["Ann"; "y"; "3"]%string)) AskCategory.
Proof.
  split; [reflexivity|]. split; [reflexivity|].
  apply (listed_number_selects_item clock0 (script ["Ann"; "y"; "3"]%string)
           [7; 8; 9]%nat 1 8); reflexivity.
Defined.

Lemma category_menu_matches_prompt_witness :
  pc (run clock0 snacks_gone) = AskCategory /\ 1 <= 2 <= 4 /\
  (exists before after,
      showCategories (menu (run clock0 snacks_gone))
      = (before ++ printCategory (menu (run clock0 snacks_gone)) 2 (categoryName 2)
         ++ after)%string) /\
  (isCategorySoldOut (menu (run clock0 snacks_gone)) (categoryName 2) = true ->
   printCategory (menu (run clock0 snacks_gone)) 2 (categoryName 2)
   = (print_int 2 ++ ") " ++ categoryName 2
      ++ Colors.SOLD_OUT ++ " [SOLD OUT]" ++ Colors.RESET ++ NL)%string /\
   step clock0 (run clock0 snacks_gone) (Line (print_int 2)) = run clock0 snacks_gone) /\
  (isCategorySoldOut (menu (run clock0 snacks_gone)) (categoryName 2) = false ->
   printCategory (menu (run clock0 snacks_gone)) 2 (categoryName 2)
   = (print_int 2 ++ ") " ++ categoryName 2 ++ NL)%string /\
   step clock0 (run clock0 snacks_gone) (Line (print_int 2))
   = with_pc (run clock0 snacks_gone)
       (AskItem (listAvailableInCategory (menu (run clock0 snacks_gone)) (categoryName 2))) /\
   listAvailableInCategory (menu (run clock0 snacks_gone)) (categoryName 2) <> []).
Proof.
  split; [vm_compute; reflexivity|]. split; [lia|].
  apply (category_menu_matches_prompt clock0 (run clock0 snacks_gone) 2);
    [vm_compute; reflexivity | lia].
Defined.

Section Orderable.

Variable clock : nat -> Z.

Lemma in_stock_listed (m : list Item) (i : nat) (it : Item) :
  m !! i = Some it -> 0 < qty it ->
  i ∈ listAvailableInCategory m (category it).
Proof.
  intros L Q. unfold listAvailableInCategory.
  apply elem_of_available_from. exists i, it.
  split; [reflexivity|]. split; [exact L|]. apply in_stock_iff. auto.
Qed.

Lemma listed_category (m : list Item) (cat : string) (i : nat) (it : Item) :
  m !! i = Some it -> i ∈ listAvailableInCategory m cat -> category it = cat.
Proof.
  intros L H. unfold listAvailableInCategory in H.
  apply elem_of_available_from in H as [k [x [E [Lx S0]]]].
  simpl in E. subst k. rewrite L in Lx. injection Lx as <-.
  apply in_stock_iff in S0. apply S0.
Qed.

Lemma run_item_category ins i it :
  menu (run clock ins) !! i = Some it ->
  exists c, 1 <= c <= 4 /\ category it = categoryName c.
Proof.
  intros L. destruct (run_Inv_menu clock ins) as [Len Ok].
  assert (Hlt : (i < length initial_menu)%nat)
    by (rewrite <- Len; eapply lookup_lt_Some; eassumption).
  destruct (lookup_lt_is_Some_2 _ _ Hlt) as [it0 L0].
  destruct (Ok i it0 it L0 L) as (_ & _ & C & _).
  assert (H0 : it0 ∈ initial_menu) by (apply list_elem_of_lookup; eauto).
  destruct (proj1 (Forall_forall _ _) initial_categories it0 H0) as [c [R E]].
  exists c. split; [exact R | congruence].
Qed.

(** After any input, an item that still has stock is offered by exactly
    one of the four categories of the menu: there is one number from 1 to 4
    whose listing contains the item, and no other number's listing does. *)
Theorem in_stock_item_is_listed_once (ins : list InEvent) (i : nat) (it : Item) :
  menu (run clock ins) !! i = Some it -> 0 < qty it ->
  exists c, 1 <= c <= 4 /\
    i ∈ listAvailableInCategory (menu (run clock ins)) (categoryName c) /\
    forall c', 1 <= c' <= 4 ->
      i ∈ listAvailableInCategory (menu (run clock ins)) (categoryName c') -> c' = c.
Proof.
  intros L Q. destruct (run_item_category ins i it L) as [c [R E]].
  exists c. split; [exact R|]. split.
  - rewrite <- E. apply in_stock_listed; assumption.
  - intros c' R' H. apply (listed_category _ _ _ _ L) in H.
    apply categoryName_inj; congruence.
Qed.

(** Whatever happened before, at the category prompt every item that still
    has stock can be ordered with three lines of input: the number of its
    category, the number the listing prints in front of it, and the quantity
    1.  The order gets a line for one unit of exactly that item and the
    item's stock goes down by one. *)
Theorem in_stock_item_can_be_ordered (ins : list InEvent) (i : nat) (it : Item) :
  pc (run clock ins) = AskCategory ->
  menu (run clock ins) !! i = Some it -> 0 < qty it ->
  exists c k,
    1 <= c <= 4 /\
    listAvailableInCategory (menu (run clock ins)) (categoryName c) !! k = Some i /\
    let st' := run clock (ins ++ [Line (print_int c); Line (item_number k); Line "1"]) in
    lines (order st') = lines (order (run clock ins)) ++ [mkLine (Some i) 1 (price it)] /\
    (qty <$> menu st' !! i) = Some (qty it - 1) /\
    pc st' = AskAddMore.
Proof.
  intros Hpc L Q.
  destruct (run_item_category ins i it L) as [c [R E]].
  pose proof (in_stock_listed _ i it L Q) as Hin. rewrite E in Hin.
  destruct (proj1 (list_elem_of_lookup _ _) Hin) as [k Lk].
  exists c, k. split; [exact R|]. split; [exact Lk|].
  set (st := run clock ins) in *.
  set (av := listAvailableInCategory (menu st) (categoryName c)) in *.
  assert (NotOut : isCategorySoldOut (menu st) (categoryName c) = false).
  { destruct (isCategorySoldOut (menu st) (categoryName c)) eqn:S0; [|reflexivity].
    apply (soldOut_from (categoryName c) 0) in S0.
    unfold av, listAvailableInCategory in Lk. rewrite S0 in Lk. discriminate. }
  assert (Short : Z.of_nat (length av) <= IntParse.INT_MAX).
  { destruct (run_Inv_menu clock ins) as [Len _]. fold st in Len.
    pose proof (length_available_from (categoryName c) (menu st) 0) as B.
    unfold av, listAvailableInCategory, IntParse.INT_MAX.
    rewrite Len in B. simpl in B. lia. }
  rewrite run_app. fold st. cbn [run_from fold_left].
  rewrite (category_choice_step clock st c Hpc R), NotOut. fold av.
  rewrite (item_choice_step clock (with_pc st (AskItem av)) av k i eq_refl Lk Short).
  rewrite (quantity_one_step clock (with_pc (with_pc st (AskItem av)) (AskQuantity i)) i it
             eq_refl L ltac:(lia)).
  cbn -[Z.sub]. split; [reflexivity|]. split; [|reflexivity].
  rewrite list_lookup_insert_eq by (eapply lookup_lt_Some; exact L). reflexivity.
Qed.

End Orderable.

Lemma in_stock_item_is_listed_once_witness :
  menu (run clock0 snacks_gone) !! 12%nat = Some (mkItem "Tiramisu" 270 20 "Desserts" 0) /\
  0 < qty (mkItem "Tiramisu" 270 20 "Desserts" 0) /\
  exists c, 1 <= c <= 4 /\
    12%nat ∈ listAvailableInCategory (menu (run clock0 snacks_gone)) (categoryName c) /\
    forall c', 1 <= c' <= 4 ->
      12%nat ∈ listAvailableInCategory (menu (run clock0 snacks_gone)) (categoryName c') ->
      c' = c.
Proof.
  split; [vm_compute; reflexivity|]. split; [reflexivity|].
  apply (in_stock_item_is_listed_once clock0 snacks_gone 12
           (mkItem "Tiramisu" 270 20 "Desserts" 0));
    [vm_compute; reflexivity | reflexivity].
Defined.

Lemma in_stock_item_can_be_ordered_witness :
  pc (run clock0 snacks_gone) = AskCategory /\
  menu (run clock0 snacks_gone) !! 12%nat = Some (mkItem "Tiramisu" 270 20 "Desserts" 0) /\
  0 < qty (mkItem "Tiramisu" 270 20 "Desserts" 0) /\
  exists c k,
    1 <= c <= 4 /\
    listAvailableInCategory (menu (run clock0 snacks_gone)) (categoryName c) !! k
    = Some 12%nat /\
    let st' := run clock0 (snacks_gone
                           ++ [Line (print_int c); Line (item_number k); Line "1"]) in
    lines (order st')
    = lines (order (run clock0 snacks_gone))
      ++ [mkLine (Some 12%nat) 1 (price (mkItem "Tiramisu" 270 20 "Desserts" 0))] /\
    (qty <$> menu st' !! 12%nat) = Some (qty (mkItem "Tiramisu" 270 20 "Desserts" 0) - 1) /\
    pc st' = AskAddMore.
Proof.
  split; [vm_compute; reflexivity|]. split; [vm_compute; reflexivity|].
  split; [reflexivity|].
  apply (in_stock_item_can_be_ordered clock0 snacks_gone 12
           (mkItem "Tiramisu" 270 20 "Desserts" 0));
    [vm_compute; reflexivity | vm_compute; reflexivity | reflexivity].
Defined.

(** ** The quantity prompt decides exactly *)

Section QuantityPrompt.

Variable clock : nat -> Z.

Lemma iter_print_int_outside lo hi z :
  IntParse.INT_MIN <= z <= IntParse.INT_MAX -> ~ (lo <= z <= hi) ->
  readIntInRange_iter lo hi (Line (print_int z)) = OutOfRange.
Proof.
  intros R B. unfold readIntInRange_iter.
  rewrite PrintFacts.strip_cr_print_int.
  rewrite (IntLiteralFacts.parse_int_complete _ _ (PrintFacts.print_int_literal z R)).
  destruct ((z <? lo) || (z >? hi)) eqn:O; [reflexivity|].
  exfalso. apply B. lia.
Qed.

(** At the quantity prompt a number is taken exactly when it lies between 1
    and the item's remaining stock: then the line is added and the stock
    reduced; any other number, such as 0, a negative number or the stock plus
    one, changes nothing and the prompt is repeated. *)
Theorem quantity_prompt_is_exact (ins : list InEvent) (chosen : nat) (q : Z) :
  pc (run clock ins) = AskQuantity chosen ->
  IntParse.INT_MIN <= q <= IntParse.INT_MAX ->
  exists it,
    menu (run clock ins) !! chosen = Some it /\
    (1 <= q <= qty it ->
     step clock (run clock ins) (Line (print_int q))
     = addToOrder (run clock ins) chosen it q) /\
    (~ (1 <= q <= qty it) ->
     step clock (run clock ins) (Line (print_int q)) = run clock ins).
Proof.
  intros Hpc R.
  pose proof (run_Inv_pc clock ins) as P. unfold Inv_pc in P. rewrite Hpc in P.
  destruct P as [it [L _]]. exists it. split; [exact L|]. split.
  - intros B. unfold step. rewrite Hpc, L.
    rewrite (PrintFacts.iter_print_int 1 (qty it) q R B). reflexivity.
  - intros B. unfold step. rewrite Hpc, L.
    rewrite (iter_print_int_outside 1 (qty it) q R B). reflexivity.
Qed.

End QuantityPrompt.

Lemma quantity_prompt_is_exact_witness :
  pc (run clock0 (script ["Ann"; "y"; "1"; "2"]%string)) = AskQuantity 1 /\
  (IntParse.INT_MIN <= 21 <= IntParse.INT_MAX) /\
  exists it,
    menu (run clock0 (script ["Ann"; "y"; "1"; "2"]%string)) !! 1%nat = Some it /\
    (1 <= 21 <= qty it ->
     step clock0 (run clock0 (script ["Ann"; "y"; "1"; "2"]%string)) (Line (print_int 21))
     = addToOrder (run clock0 (script ["Ann"; "y"; "1"; "2"]%string)) 1 it 21) /\
    (~ (1 <= 21 <= qty it) ->
     step clock0 (run clock0 (script ["Ann"; "y"; "1"; "2"]%string)) (Line (print_int 21))
     = run clock0 (script ["Ann"; "y"; "1"; "2"]%string)).
Proof.
  split; [reflexivity|]. split; [vm_compute; split; discriminate|].
  apply (quantity_prompt_is_exact clock0 (script ["Ann"; "y"; "1"; "2"]%string) 1 21);
    [reflexivity | vm_compute; split; discriminate].
Defined.

(** ** The name prompt and a failed stream *)

Lemma nameLoop_failed (n : nat) (c : Cin) :
  failbit c = true -> nameLoop n c = Running c.
Proof.
  intros F. induction n as [|n IH]; simpl; [reflexivity|].
  unfold readLineTrimmed_cin, getline. rewrite F. simpl. exact IH.
Qed.

Lemma nameLoop_after_eof (n : nat) (c : Cin) (rest : list InEvent) :
  failbit c = false -> pending c = Eof :: rest ->
  nameLoop (S n) c = Running (mkCin rest true).
Proof.
  intros F P. simpl. unfold readLineTrimmed_cin, getline. rewrite F, P. simpl.
  apply nameLoop_failed. reflexivity.
Qed.

Lemma nameLoop_line (n : nat) (s : string) (rest : list InEvent) :
  nameLoop (S n) (mkCin (Line s :: rest) false)
  = if String.eqb (trim s) "" then nameLoop n (mkCin rest false)
    else Returned (trim s) (mkCin rest false).
Proof. reflexivity. Qed.

Lemma readYesNo_cin_agrees (ins : list InEvent) : forall b rest,
  readYesNo ins = Some (b, rest) ->
  readYesNo_cin (length ins) (mkCin ins false) = Returned b (mkCin rest false).
Proof.
  induction ins as [|ev ins IH]; intros b rest H; [discriminate|].
  destruct ev as [s|].
  - cbn [length readYesNo_cin]. unfold getline. cbn [failbit pending].
    cbn [readYesNo] in H.
    destruct (readYesNo_iter (Line s)) as [b'|].
    + injection H as -> ->. reflexivity.
    + apply IH. exact H.
  - cbn [length readYesNo_cin]. unfold getline. cbn [failbit pending].
    unfold cin_clear. cbn [pending]. apply IH. exact H.
Qed.

Section NamePrompt.

Variable clock : nat -> Z.

Lemma nameLoop_refines (ins : list InEvent) : forall st,
  pc st = AskName ->
  match nameLoop (S (length ins)) (mkCin ins false) with
  | Returned nm c' =>
      exists pre,
        ins = pre ++ pending c' /\ failbit c' = false /\ nm <> ""%string /\
        run_from clock st pre
        = with_pc (with_order st (mkOrder nm (dineOption (order st))
                                          (lines (order st)) (receiptNo (order st))))
                  AskDine
  | Waiting c' =>
      c' = mkCin [] false /\ run_from clock st ins = st
  | Running c' =>
      failbit c' = true /\ run_from clock st ins = with_pc st NameLivelock
  end.
Proof.
  induction ins as [|ev ins IH]; intros st Hpc.
  - simpl. split; reflexivity.
  - destruct ev as [s|].
    + change (length (Line s :: ins)) with (S (length ins)).
      rewrite nameLoop_line.
      destruct (String.eqb (trim s) "") eqn:E.
      * assert (St : step clock st (Line s) = st)
          by (unfold step; rewrite Hpc, E; reflexivity).
        specialize (IH st Hpc). cbv beta iota.
        destruct (nameLoop (S (length ins)) (mkCin ins false)) as [nm c'|c'|c'];
          cbv beta iota in *.
        -- destruct IH as [pre (E1 & F & N & R)].
           exists (Line s :: pre). split; [simpl; congruence|].
           split; [exact F|]. split; [exact N|].
           cbn [run_from fold_left]. rewrite St. exact R.
        -- destruct IH as [E1 R]. split; [exact E1|].
           cbn [run_from fold_left]. rewrite St. exact R.
        -- destruct IH as [F R]. split; [exact F|].
           cbn [run_from fold_left]. rewrite St. exact R.
      * cbv beta iota.
        exists [Line s]. split; [reflexivity|]. split; [reflexivity|].
        split; [apply String.eqb_neq; exact E|].
        cbn [run_from fold_left]. unfold step. rewrite Hpc, E. reflexivity.
    + rewrite (nameLoop_after_eof (length (Eof :: ins)) (mkCin (Eof :: ins) false) ins
                 eq_refl eq_refl).
      split; [reflexivity|]. apply name_prompt_eof_livelock. exact Hpc.
Qed.

(** [readLineTrimmed] never clears the stream.  So once a read has failed
    at the name prompt, every later read fails at once without taking
    anything from the input: however many times the name loop iterates, it
    is still iterating, it has returned no name, and the rest of the input
    is unread.  [readYesNo], which clears the stream after a failed read,
    goes on and returns what the list-based [readYesNo] returns.  And the
    machine of [main] agrees with the name loop on the stream: it reaches the
    dine prompt with the name the loop returns, stays at the name prompt
    while the loop waits, and is in [NameLivelock] exactly when the loop
    spins on a failed stream. *)
Theorem name_loop_never_recovers
  (n : nat) (c : Cin) (ins : list InEvent) (st : State) :
  (failbit c = true -> nameLoop n c = Running c) /\
  (forall rest, failbit c = false -> pending c = Eof :: rest ->
                nameLoop (S n) c = Running (mkCin rest true)) /\
  (forall b rest, readYesNo ins = Some (b, rest) ->
                  readYesNo_cin (length ins) (mkCin ins false)
                  = Returned b (mkCin rest false)) /\
  (pc st = AskName ->
   match nameLoop (S (length ins)) (mkCin ins false) with
   | Returned nm c' =>
       exists pre,
         ins = pre ++ pending c' /\ failbit c' = false /\ nm <> ""%string /\
         run_from clock st pre
         = with_pc (with_order st (mkOrder nm (dineOption (order st))
                                           (lines (order st)) (receiptNo (order st))))
                   AskDine
   | Waiting c' =>
       c' = mkCin [] false /\ run_from clock st ins = st
   | Running c' =>
       failbit c' = true /\ run_from clock st ins = with_pc st NameLivelock
   end).
Proof.
  split; [apply nameLoop_failed|].
  split; [intros rest; apply nameLoop_after_eof|].
  split; [apply readYesNo_cin_agrees|].
  apply nameLoop_refines.
Qed.

End NamePrompt.

(** A blank line, a failed read, and then a name that is never read;
    against the same failed read at the yes/no prompt. *)
Example name_loop_spins :
  nameLoop 1000 (mkCin [Line "  "; Eof; Line "Bob"] false)
  = Running (mkCin [Line "Bob"] true) /\
  nameLoop 1000 (mkCin [Line "  "; Line " Bob "] false)
  = Returned "Bob"%string (mkCin [] false) /\
  readYesNo_cin 1000 (mkCin [Eof; Line "Y"; Line "Bob"] false)
  = Returned true (mkCin [Line "Bob"] false).
Proof. vm_compute. repeat split; reflexivity. Qed.
